(** * scScope: recurrent imputing autoencoder (scScope.py)

    A shallow embedding of [scScope.forward], [scScopeTrainer.__init__]
    (the batch indicator), [scScopeTrainer.loss] and
    [scScopeTrainer.predict], and the properties of these functions.

    Tensors are generic in their element type ([dtype]), as torch tensors
    are.  The element types provided are the IEEE-754 binary formats
    ([ieee]; [float32] is the one the program runs on, and every definition
    computes there) and the exact real numbers ([real]), over which the
    algebraic properties of the mask, the merge rule and the loss are
    stated.

    [forward] assigns attributes of the model instance and draws random
    weights, so it is a computation over a state, the [world]: the model
    instance, the random number generator, a counter of object identities
    and, for the properties that count events, the trace of what was run.
    The layers inherited from [AutoEncoder] and the dataset class are not
    part of scScope.py; they enter as records of what the program uses of
    them.

    The tensor operations are the values torch computes on operands of
    matching shapes.  On other shapes torch raises a RuntimeError or
    broadcasts; the properties that say what [forward] returns carry the
    conditions [shapes_fit] and [layers_keep_shape], under which it does
    neither. *)

From Stdlib Require Import ZArith List Bool Lia Reals Lra.
From Stdlib Require Import Floats.SpecFloat.
Import ListNotations.

(** ** Element types *)

Record dtype : Type := Dtype {
  scalar : Type;
  d_zero : scalar;
  d_one : scalar;
  d_add : scalar -> scalar -> scalar;
  d_sub : scalar -> scalar -> scalar;
  d_mul : scalar -> scalar -> scalar;
  d_div : scalar -> scalar -> scalar;
  d_sqrt : scalar -> scalar;
  d_ltb : scalar -> scalar -> bool;
  d_of_Z : Z -> scalar
}.

(** IEEE-754 binary floating point with [prec] bits of precision and the
    infinities at exponent [emax], as the standard library specifies it. *)
Definition ieee (prec emax : Z) : dtype :=
  {| scalar := spec_float;
     d_zero := S754_zero false;
     d_one := SFone prec emax;
     d_add := SFadd prec emax;
     d_sub := SFsub prec emax;
     d_mul := SFmul prec emax;
     d_div := SFdiv prec emax;
     d_sqrt := SFsqrt prec emax;
     d_ltb := SFltb;
     d_of_Z := fun z => binary_normalize prec emax z 0 false |}.

(** [torch.float32], the type of the tensors the model is run on. *)
Definition float32 : dtype := ieee 24 128.

(** Neither an infinity nor a NaN. *)
Definition is_finite (x : spec_float) : bool :=
  match x with
  | S754_zero _ | S754_finite _ _ _ => true
  | S754_infinity _ | S754_nan => false
  end.

Definition is_zero (x : spec_float) : bool :=
  match x with
  | S754_zero _ => true
  | _ => false
  end.

(** The sign bit: set on [-0], on the negative numbers and on [-inf]. *)
Definition sign_bit (x : spec_float) : bool :=
  match x with
  | S754_zero s | S754_infinity s | S754_finite s _ _ => s
  | S754_nan => false
  end.

Module F32.
Definition zero : scalar float32 := S754_zero false.
Definition nan : scalar float32 := S754_nan.
Definition inf : scalar float32 := S754_infinity false.
Definition of_Z (z : Z) : scalar float32 := d_of_Z float32 z.
End F32.

Definition Rltb (x y : R) : bool := if Rlt_dec x y then true else false.

Definition real : dtype :=
  {| scalar := R;
     d_zero := 0%R;
     d_one := 1%R;
     d_add := Rplus;
     d_sub := Rminus;
     d_mul := Rmult;
     d_div := Rdiv;
     d_sqrt := sqrt;
     d_ltb := Rltb;
     d_of_Z := IZR |}.

(** ** Exceptions *)

Inductive exn : Type :=
| IndexError
| AttributeError
| UnboundLocalError.

Inductive result (A : Type) : Type :=
| Ok (a : A)
| Raise (e : exn).
Arguments Ok {A} a.
Arguments Raise {A} e.

(** ** Tensor operations (torch) *)

Fixpoint zip_with {A B C : Type} (f : A -> B -> C) (l : list A) (l' : list B)
  : list C :=
  match l, l' with
  | a :: l, b :: l' => f a b :: zip_with f l l'
  | _, _ => []
  end.

Section Tensor.
Variable D : dtype.

(** A 2-d tensor: the list of its rows. *)
Definition tensor : Type := list (list (scalar D)).

(** Element-wise operations.  The operands of every binary operation of
    the program have the same shape (cells x genes), and [pointwise2] is the
    value torch computes on such operands.  On operands of different shapes
    torch broadcasts or raises a RuntimeError; the properties of [forward]
    are stated for operands of matching shapes ([shapes_fit] and
    [layers_keep_shape] below). *)
Definition pointwise (f : scalar D -> scalar D) (a : tensor) : tensor :=
  map (map f) a.
Definition pointwise2 (f : scalar D -> scalar D -> scalar D) (a b : tensor)
  : tensor :=
  zip_with (zip_with f) a b.

Definition torch_add : tensor -> tensor -> tensor := pointwise2 (d_add D).
Definition torch_sub : tensor -> tensor -> tensor := pointwise2 (d_sub D).
Definition torch_mul : tensor -> tensor -> tensor := pointwise2 (d_mul D).

(** [a + 1] and [1 - a], with the Python number broadcast. *)
Definition add_scalar (a : tensor) (k : scalar D) : tensor :=
  pointwise (fun v => d_add D v k) a.
Definition rsub_scalar (k : scalar D) (a : tensor) : tensor :=
  pointwise (fun v => d_sub D k v) a.

Definition of_bool (b : bool) : scalar D := if b then d_one D else d_zero D.

(** [torch.sign]: [(0 < a) - (a < 0)]. *)
Definition sign (a : scalar D) : scalar D :=
  d_sub D (of_bool (d_ltb D (d_zero D) a)) (of_bool (d_ltb D a (d_zero D))).
Definition torch_sign : tensor -> tensor := pointwise sign.

(** [F.relu]. *)
Definition relu (a : scalar D) : scalar D :=
  if d_ltb D a (d_zero D) then d_zero D else a.
Definition F_relu : tensor -> tensor := pointwise relu.

(** [torch.norm]: the Frobenius norm, the square root of the sum of the
    squares of all entries.  Over the IEEE formats the squares are rounded
    and added from left to right; the order in which torch adds them, and
    its shortcut for a tensor of one entry, are not modelled. *)
Definition sum_squares (l : list (scalar D)) : scalar D :=
  fold_left (fun acc v => d_add D acc (d_mul D v v)) l (d_zero D).
Definition torch_norm (a : tensor) : scalar D :=
  d_sqrt D (sum_squares (concat a)).

(** [nn.Linear(in, out, bias=False)] with weight [w] (out x in), on an
    argument whose rows have [in] entries.  On rows of another width
    [nn.Linear] raises a RuntimeError; [shapes_fit] below is the condition
    under which it does not.  Over the IEEE formats the products of a row
    are added from left to right. *)
Definition dot (u v : list (scalar D)) : scalar D :=
  fold_left (d_add D) (zip_with (d_mul D) u v) (d_zero D).
Definition F_linear (w : tensor) (a : tensor) : tensor :=
  map (fun row => map (dot row) w) a.

(** The entry at row [r], column [c]. *)
Definition entry (a : tensor) (r c : nat) : option (scalar D) :=
  match nth_error a r with
  | Some row => nth_error row c
  | None => None
  end.

(** ** [scScopeTrainer.loss] *)

Definition val_mask (use_mask : bool) (input_d_corrected : tensor) : tensor :=
  if use_mask then torch_sign input_d_corrected
  else torch_sign (add_scalar input_d_corrected (d_one D)).

(** One round's contribution. *)
Definition round_loss (mask input_d_corrected input_d out_layer : tensor)
  : scalar D :=
  d_div D
    (torch_norm (torch_sub (torch_mul mask out_layer)
                           (torch_mul mask input_d_corrected)))
    (torch_norm (torch_mul mask input_d)).

(** The body of the loop, for index [i]; [loss_value] is unbound until the
    first iteration has assigned it. *)
Definition loss_step (output_layer_list : list tensor)
    (mask input_d_corrected input_d : tensor)
    (loss_value : option (scalar D)) (i : nat) : result (option (scalar D)) :=
  match nth_error output_layer_list i with
  | None => Raise IndexError
  | Some out_layer =>
      let term := round_loss mask input_d_corrected input_d out_layer in
      if Nat.eqb i 0 then Ok (Some term)
      else match loss_value with
           | None => Raise UnboundLocalError
           | Some v => Ok (Some (d_add D v term))
           end
  end.

Fixpoint loss_loop (output_layer_list : list tensor)
    (mask input_d_corrected input_d : tensor)
    (range : list nat) (loss_value : option (scalar D))
  : result (option (scalar D)) :=
  match range with
  | [] => Ok loss_value
  | i :: range' =>
      match loss_step output_layer_list mask input_d_corrected input_d
                      loss_value i with
      | Raise e => Raise e
      | Ok loss_value' =>
          loss_loop output_layer_list mask input_d_corrected input_d
                    range' loss_value'
      end
  end.

Definition loss (output_layer_list : list tensor) (input_d : tensor)
    (use_mask : bool) (batch_effect_removal_layer : tensor)
  : result (scalar D) :=
  let input_d_corrected := torch_sub input_d batch_effect_removal_layer in
  let mask := val_mask use_mask input_d_corrected in
  match loss_loop output_layer_list mask input_d_corrected input_d
                  (seq 0 (length output_layer_list)) None with
  | Raise e => Raise e
  | Ok None => Raise UnboundLocalError
  | Ok (Some loss_value) => Ok loss_value
  end.
End Tensor.

Arguments entry {D} _ _ _.

(** ** State and exceptions

    A computation reads and writes a state and either returns a value or
    raises; what it wrote before raising stays written. *)

Definition M (S A : Type) : Type := S -> result A * S.

Definition ret {S A : Type} (a : A) : M S A := fun s => (Ok a, s).
Definition raise {S A : Type} (e : exn) : M S A := fun s => (Raise e, s).
Definition bind {S A B : Type} (m : M S A) (k : A -> M S B) : M S B :=
  fun s =>
    match m s with
    | (Ok a, s') => k a s'
    | (Raise e, s') => (Raise e, s')
    end.
Definition gets {S A : Type} (f : S -> A) : M S A := fun s => (Ok (f s), s).
Definition modify {S : Type} (f : S -> S) : M S unit := fun s => (Ok tt, f s).
Definition lift {S A : Type} (r : result A) : M S A := fun s => (r, s).

Declare Scope monad_scope.
Delimit Scope monad_scope with monad.
Notation "x <- c ;; k" := (bind c (fun x => k))
  (at level 61, c at next level, right associativity) : monad_scope.
Notation "c ;; k" := (bind c (fun _ => k))
  (at level 61, right associativity) : monad_scope.
Open Scope monad_scope.

(** An attribute or a local variable that may not have been assigned yet. *)
Definition read {S A : Type} (e : exn) (f : S -> option A) : M S A :=
  fun s =>
    match f s with
    | Some a => (Ok a, s)
    | None => (Raise e, s)
    end.

(** ** The model: [class scScope(AutoEncoder)] *)

Section Model.
Variable D : dtype.
Local Abbreviation tensor := (tensor D).

(** The state of torch's random number generator. *)
Variable Gen : Type.

(** The imputation network built in [forward]:
    [nn.Sequential(LinearActivation(input_dim, 64, 'relu', normal(std=0.1),
    zeros), nn.Linear(64, input_dim))] with the second layer's bias zeroed
    and its weight drawn from normal(0, 0.1).  [LinearActivation] is
    defined in network.py; the construction is taken as a whole: from the
    input dimension and the generator, the network's function and the
    generator after the draws. *)
Variable Sequential_init : nat -> Gen -> (tensor -> tensor) * Gen.

(** An [nn.Module] object: its identity and the function its current
    weights compute. *)
Record nn_Module : Type := {
  mod_id : nat;
  mod_forward : tensor -> tensor
}.

(** The layers inherited from [AutoEncoder] (network.py). *)
Record AutoEncoder : Type := {
  encode : tensor -> tensor;
  latent_layer : tensor -> tensor;
  decode : tensor -> tensor;
  output_layer : tensor -> tensor
}.

(** The attributes of a model instance.  [input],
    [batch_effect_removal_layer] and [imputation_model] do not exist until
    [forward] assigns them. *)
Record scScope : Type := {
  t : Z;
  input_dim : nat;
  base : AutoEncoder;
  batch_effect_layer : tensor;
  input : option tensor;
  batch_effect_removal_layer : option tensor;
  imputation_model : option nn_Module
}.

Definition set_input (v : tensor) (m : scScope) : scScope :=
  {| t := t m; input_dim := input_dim m; base := base m;
     batch_effect_layer := batch_effect_layer m;
     input := Some v;
     batch_effect_removal_layer := batch_effect_removal_layer m;
     imputation_model := imputation_model m |}.

Definition set_batch_effect_removal_layer (v : tensor) (m : scScope)
  : scScope :=
  {| t := t m; input_dim := input_dim m; base := base m;
     batch_effect_layer := batch_effect_layer m;
     input := input m;
     batch_effect_removal_layer := Some v;
     imputation_model := imputation_model m |}.

Definition set_imputation_model (v : nn_Module) (m : scScope) : scScope :=
  {| t := t m; input_dim := input_dim m; base := base m;
     batch_effect_layer := batch_effect_layer m;
     input := input m;
     batch_effect_removal_layer := batch_effect_removal_layer m;
     imputation_model := Some v |}.

(** What a run does, for the properties that count: the batch-effect layer
    is applied, an imputation network is constructed, the imputation
    network [id] is applied in round [i]. *)
Inductive event : Type :=
| EvBatchEffect
| EvConstruct (id : nat)
| EvImpute (i : nat) (id : nat).

(** The model instance together with the generator, the next fresh object
    identity and the events so far, newest first. *)
Record world : Type := {
  self : scScope;
  rng : Gen;
  next_id : nat;
  trace : list event
}.

Definition on_self (f : scScope -> scScope) (w : world) : world :=
  {| self := f (self w); rng := rng w; next_id := next_id w;
     trace := trace w |}.

Definition log (e : event) : M world unit :=
  modify (fun w => {| self := self w; rng := rng w; next_id := next_id w;
                      trace := e :: trace w |}).

Definition zeros (rows cols : nat) : tensor :=
  repeat (repeat (d_zero D) cols) rows.

(** [shape[1]] of a 2-d tensor. *)
Definition shape1 (a : tensor) : nat := length (hd [] a).

(** [scScope.__init__]; [layers] is what [AutoEncoder.__init__] builds. *)
Definition scScope_init (input_d : tensor) (layers : AutoEncoder)
    (exp_batch_input : tensor) (t : Z) : scScope :=
  let input_dim := shape1 input_d in
  let num_batch :=
    if Nat.ltb 0 (length exp_batch_input) then shape1 exp_batch_input
    else 1%nat in
  {| t := t; input_dim := input_dim; base := layers;
     batch_effect_layer := zeros input_dim num_batch;
     input := None;
     batch_effect_removal_layer := None;
     imputation_model := None |}.

(** The modules whose parameters [self.parameters()] yields: the four
    inherited ones, the batch-effect layer and, once it has been assigned,
    the imputation network. *)
Inductive submodule : Type :=
| Encoder
| LatentLayer
| Decoder
| OutputLayer
| BatchEffectLayer
| ImputationModel.

Definition parameters (m : scScope) : list submodule :=
  [Encoder; LatentLayer; Decoder; OutputLayer; BatchEffectLayer]
  ++ match imputation_model m with
     | Some _ => [ImputationModel]
     | None => []
     end.

(** The construction in the branch [i == 1]. *)
Definition construct_imputation_model : M world unit :=
  fun w =>
    let (f, g) := Sequential_init (input_dim (self w)) (rng w) in
    let id := next_id w in
    (Ok tt,
     {| self := set_imputation_model {| mod_id := id; mod_forward := f |}
                                     (self w);
        rng := g;
        next_id := S id;
        trace := EvConstruct id :: trace w |}).

(** [imputed * (1 - sign(input))]: the merge rule. *)
Definition impute_merge (input imputed : tensor) : tensor :=
  torch_mul D (rsub_scalar D (d_one D) (torch_sign D input)) imputed.

(** The local variables of [forward]. *)
Record locals : Type := {
  x : tensor;
  output : option tensor;
  latent_features_list : list tensor;
  output_list : list tensor
}.

(** The body of [for i in range(self.t)].  [output] is the local variable
    the previous round assigned; the event is recorded where
    [self.imputation_model] is called. *)
Definition round (i : nat) (l : locals) : M world locals :=
  x1 <- (if Nat.eqb i 0 then
           b <- read AttributeError
                  (fun w => batch_effect_removal_layer (self w)) ;;
           ret (F_relu D (torch_sub D (x l) b))
         else
           (if Nat.eqb i 1 then construct_imputation_model else ret tt) ;;
           net <- read AttributeError (fun w => imputation_model (self w)) ;;
           out <- lift (match output l with
                        | Some o => Ok o
                        | None => Raise UnboundLocalError
                        end) ;;
           log (EvImpute i (mod_id net)) ;;
           let imputed := mod_forward net out in
           inp <- read AttributeError (fun w => input (self w)) ;;
           let imputed := impute_merge inp imputed in
           inp' <- read AttributeError (fun w => input (self w)) ;;
           b <- read AttributeError
                  (fun w => batch_effect_removal_layer (self w)) ;;
           ret (F_relu D (torch_sub D (torch_add D imputed inp') b))) ;;
  layers <- gets (fun w => base (self w)) ;;
  let x2 := encode layers x1 in
  let latent_features := latent_layer layers x2 in
  let x3 := decode layers latent_features in
  let out := output_layer layers x3 in
  ret {| x := x3;
         output := Some out;
         latent_features_list := latent_features_list l ++ [latent_features];
         output_list := output_list l ++ [out] |}.

Fixpoint for_rounds (range : list nat) (l : locals) : M world locals :=
  match range with
  | [] => ret l
  | i :: range' => l' <- round i l ;; for_rounds range' l'
  end.

(** [scScope.forward]. *)
Definition forward (x exp_batch_input : tensor)
  : M world (list tensor * list tensor * tensor) :=
  modify (on_self (set_input x)) ;;
  w <- gets (fun w => batch_effect_layer (self w)) ;;
  log EvBatchEffect ;;
  modify (on_self (set_batch_effect_removal_layer
                     (F_linear D w exp_batch_input))) ;;
  n <- gets (fun w => t (self w)) ;;
  l <- for_rounds (seq 0 (Z.to_nat n))
         {| x := x; output := None;
            latent_features_list := []; output_list := [] |} ;;
  b <- read AttributeError (fun w => batch_effect_removal_layer (self w)) ;;
  ret (output_list l, latent_features_list l, b).
End Model.

Arguments self {D Gen} _.
Arguments rng {D Gen} _.
Arguments next_id {D Gen} _.
Arguments trace {D Gen} _.
Arguments t {D} _.
Arguments input_dim {D} _.
Arguments base {D} _.
Arguments batch_effect_layer {D} _.
Arguments input {D} _.
Arguments batch_effect_removal_layer {D} _.
Arguments imputation_model {D} _.
Arguments mod_id {D} _.
Arguments mod_forward {D} _.
Arguments parameters {D} _.
Arguments construct_imputation_model {D Gen} _ _.
Arguments round {D Gen} _ _ _ _.
Arguments for_rounds {D Gen} _ _ _ _.
Arguments forward {D Gen} _ _ _ _.

(** ** The batch indicator (numpy) *)

(** An integer array of two dimensions: the list of its rows. *)
Definition ndarray : Type := list (list Z).

(** [np.unique]: the distinct values (numpy sorts them; only their number is
    used). *)
Definition np_unique (a : ndarray) : list Z := nodup Z.eq_dec (concat a).

Definition np_zeros (rows cols : nat) : ndarray :=
  repeat (repeat 0%Z cols) rows.

Definition np_ones_like (a : ndarray) : ndarray := map (map (fun _ => 1%Z)) a.

(** An index [j] along an axis of size [k]: negative indices count from the
    end, anything outside [-k, k) is an IndexError. *)
Definition axis_index (k : nat) (j : Z) : option nat :=
  if (0 <=? j)%Z && (j <? Z.of_nat k)%Z then Some (Z.to_nat j)
  else if (- Z.of_nat k <=? j)%Z && (j <? 0)%Z then
         Some (Z.to_nat (j + Z.of_nat k))
  else None.

Fixpoint axis_indices (k : nat) (idx : list Z) : option (list nat) :=
  match idx with
  | [] => Some []
  | j :: idx' =>
      match axis_index k j, axis_indices k idx' with
      | Some c, Some cs => Some (c :: cs)
      | _, _ => None
      end
  end.

Fixpoint list_set {A : Type} (l : list A) (n : nat) (v : A) : list A :=
  match l, n with
  | [], _ => []
  | _ :: l', O => v :: l'
  | a :: l', S n' => a :: list_set l' n' v
  end.

Definition set_columns (row : list Z) (cols : list nat) (v : Z) : list Z :=
  fold_left (fun r c => list_set r c v) cols row.

(** [a[:, idx] = v] for an array [a] with [k] columns and an integer index
    array [idx] (flattened): in every row, every column named by [idx] is
    set. *)
Definition assign_columns (k : nat) (a : ndarray) (idx : list Z) (v : Z)
  : result ndarray :=
  match axis_indices k idx with
  | None => Raise IndexError
  | Some cols => Ok (map (fun row => set_columns row cols v) a)
  end.

(** [batch.reshape((1, -1)) - 1]. *)
Definition column_indices (batch : ndarray) : list Z :=
  map (fun label => (label - 1)%Z) (concat batch).

(** What the trainer reads of [GeneExpressionDataset] (dataset.py). *)
Record GeneExpressionDataset : Type := {
  nb_cells : nat;
  num_batches : nat;
  batch_indices : ndarray
}.

(** [scScopeTrainer.__init__]: the value of [self.one_hot_batches]. *)
Definition trainer_one_hot_batches (gene_dataset : GeneExpressionDataset)
  : result ndarray :=
  if Nat.ltb 1 (num_batches gene_dataset) then
    assign_columns (num_batches gene_dataset)
      (np_zeros (nb_cells gene_dataset) (num_batches gene_dataset))
      (column_indices (batch_indices gene_dataset)) 1%Z
  else Ok (np_ones_like (batch_indices gene_dataset)).

(** [scScopeTrainer.predict]: the value of [one_hot_batches]. *)
Definition predict_one_hot_batches (batch_data : ndarray) : result ndarray :=
  if Nat.ltb 1 (length (np_unique batch_data)) then
    assign_columns (length (np_unique batch_data))
      (np_zeros (length batch_data) (length (np_unique batch_data)))
      (column_indices batch_data) 1%Z
  else Ok (np_ones_like batch_data).

(** ** [scScopeTrainer.predict] *)

Section Predict.
Variable D : dtype.
Variable Gen : Type.
Variable Sequential_init : nat -> Gen -> (tensor D -> tensor D) * Gen.

(** [torch.tensor(a, dtype=float)]. *)
Definition torch_tensor (a : ndarray) : tensor D := map (map (d_of_Z D)) a.

(** The Python values [predict] calls [.detach()] on: a tensor has the
    method, a list has not. *)
Inductive pyobj : Type :=
| PyTensor (a : tensor D)
| PyList (l : list (tensor D)).

Definition detach (o : pyobj) : result (tensor D) :=
  match o with
  | PyTensor a => Ok a
  | PyList _ => Raise AttributeError
  end.

(** [[l.detach().numpy() for l in latent_layer]]. *)
Fixpoint detach_each (l : list (tensor D)) : result (list (tensor D)) :=
  match l with
  | [] => Ok []
  | a :: l' =>
      match detach (PyTensor a) with
      | Raise e => Raise e
      | Ok a' =>
          match detach_each l' with
          | Raise e => Raise e
          | Ok r => Ok (a' :: r)
          end
      end
  end.

Definition predict (input_d : tensor D) (batch_data : ndarray)
  : M (world D Gen) (tensor D * list (tensor D) * tensor D) :=
  one_hot_batches <- lift (predict_one_hot_batches batch_data) ;;
  r <- forward Sequential_init input_d (torch_tensor one_hot_batches) ;;
  let '(output_layer, latent_layer, batch_removal_layer) := r in
  output_layer_numpy <- lift (detach (PyList output_layer)) ;;
  latent_layer_numpy <- lift (detach_each latent_layer) ;;
  batch_removal_layer_numpy <- lift (detach (PyTensor batch_removal_layer)) ;;
  ret (output_layer_numpy, latent_layer_numpy, batch_removal_layer_numpy).
End Predict.

Arguments predict {D Gen} _ _ _ _.

(** ** Runs of several forward calls on one model instance *)

Section Calls.
Variable D : dtype.
Variable Gen : Type.
Variable Sequential_init : nat -> Gen -> (tensor D -> tensor D) * Gen.

Fixpoint forward_calls (calls : list (tensor D * tensor D))
  : M (world D Gen) unit :=
  match calls with
  | [] => ret tt
  | (x, exp_batch_input) :: calls' =>
      forward Sequential_init x exp_batch_input ;;
      forward_calls calls'
  end.

Definition is_construct (e : event) : bool :=
  match e with
  | EvConstruct _ => true
  | _ => false
  end.

Definition is_batch_effect (e : event) : bool :=
  match e with
  | EvBatchEffect => true
  | _ => false
  end.

(** How many imputation networks were constructed in a run. *)
Definition constructions (tr : list event) : nat :=
  length (filter is_construct tr).
End Calls.

Arguments forward_calls {D Gen} _ _ _.

(** ** The trainer: [class scScopeTrainer(Trainer)] *)

Section Trainer.
Variable D : dtype.
Variable Gen : Type.
Variable Sequential_init : nat -> Gen -> (tensor D -> tensor D) * Gen.

(** [a[indices, :]]: the rows of [a] named by an integer index tensor. *)
Fixpoint index_rows (a : tensor D) (indices : list Z) : result (tensor D) :=
  match indices with
  | [] => Ok []
  | j :: indices' =>
      match axis_index (length a) j with
      | None => Raise IndexError
      | Some r =>
          match nth_error a r with
          | None => Raise IndexError
          | Some row =>
              match index_rows a indices' with
              | Raise e => Raise e
              | Ok rows => Ok (row :: rows)
              end
          end
      end
  end.

(** [optim.Adam(params)]: the optimizer keeps the parameters it was given
    when it was built: the modules they belong to and, for the imputation
    network, which network object. *)
Record Adam : Type := {
  held : list submodule;
  held_imputation : option nat
}.

(** What [optimizer.zero_grad(); loss.backward(); optimizer.step()] does to
    the model, from the optimizer and the loss (torch's autograd and
    optimizer). *)
Variable backward_step : Adam -> scalar D -> world D Gen -> world D Gen.

(** The attributes of a trainer this file reads or writes; [epoch],
    [frequency_stats] and [num_epochs] are kept by [Trainer] (trainer.py). *)
Record scScopeTrainer : Type := {
  model : world D Gen;
  one_hot_batches : tensor D;
  use_mask : bool;
  optimizer : option Adam;
  current_loss : option (scalar D)
}.

Definition set_model (w : world D Gen) (tr : scScopeTrainer)
  : scScopeTrainer :=
  {| model := w; one_hot_batches := one_hot_batches tr;
     use_mask := use_mask tr; optimizer := optimizer tr;
     current_loss := current_loss tr |}.

Definition set_optimizer (o : Adam) (tr : scScopeTrainer) : scScopeTrainer :=
  {| model := model tr; one_hot_batches := one_hot_batches tr;
     use_mask := use_mask tr; optimizer := Some o;
     current_loss := current_loss tr |}.

Definition set_current_loss (v : scalar D) (tr : scScopeTrainer)
  : scScopeTrainer :=
  {| model := model tr; one_hot_batches := one_hot_batches tr;
     use_mask := use_mask tr; optimizer := optimizer tr;
     current_loss := Some v |}.

(** [scScopeTrainer.__init__], for the attributes above. *)
Definition trainer_init (w : world D Gen)
    (gene_dataset : GeneExpressionDataset) (use_mask : bool)
  : result scScopeTrainer :=
  match trainer_one_hot_batches gene_dataset with
  | Raise e => Raise e
  | Ok a =>
      Ok {| model := w;
            one_hot_batches := map (map (d_of_Z D)) a;
            use_mask := use_mask;
            optimizer := None;
            current_loss := None |}
  end.

(** A call of the model, [self.model(...)], from the trainer. *)
Definition on_model {A : Type} (c : M (world D Gen) A) : M scScopeTrainer A :=
  fun tr => let (r, w) := c (model tr) in (r, set_model w tr).

(** [scScopeTrainer.on_training_begin]. *)
Definition on_training_begin : M scScopeTrainer unit :=
  modify (fun tr =>
            set_optimizer
              {| held := parameters (self (model tr));
                 held_imputation :=
                   option_map (fun net : nn_Module D => mod_id net)
                              (imputation_model (self (model tr))) |}
              tr).

(** [scScopeTrainer.model_output]; [data_tensor] is the pair of [data] and
    [indices]. *)
Definition model_output (data : tensor D) (indices : list Z)
  : M scScopeTrainer
      (list (tensor D) * list (tensor D) * tensor D * tensor D) :=
  a <- gets one_hot_batches ;;
  batch_data <- lift (index_rows a indices) ;;
  r <- on_model (forward Sequential_init data batch_data) ;;
  let '(output_list, latent_list, batch_effect_removal_layer) := r in
  ret (output_list, latent_list, batch_effect_removal_layer, data).

(** [scScopeTrainer.on_training_loop]. *)
Definition on_training_loop (data : tensor D) (indices : list Z)
  : M scScopeTrainer unit :=
  r <- model_output data indices ;;
  let '(output_list, latent_list, batch_effect_removal_layer, data) := r in
  flag <- gets use_mask ;;
  v <- lift (loss D output_list data flag batch_effect_removal_layer) ;;
  modify (set_current_loss v) ;;
  o <- read AttributeError optimizer ;;
  modify (fun tr => set_model (backward_step o v (model tr)) tr).
End Trainer.

Arguments model {D Gen} _.
Arguments one_hot_batches {D Gen} _.
Arguments use_mask {D Gen} _.
Arguments optimizer {D Gen} _.
Arguments current_loss {D Gen} _.
Arguments index_rows {D} _ _.
Arguments trainer_init {D Gen} _ _ _.
Arguments on_training_begin {D Gen} _.
Arguments model_output {D Gen} _ _ _ _.
Arguments on_training_loop {D Gen} _ _ _ _ _.

(** The test of [scScopeTrainer.on_epoch_end]:
    [(epoch % frequency_stats == 0) or epoch == 0 or epoch == num_epochs],
    on Python integers; [None] is the ZeroDivisionError of [%]. *)
Definition stats_due (epoch frequency_stats num_epochs : Z) : option bool :=
  if (frequency_stats =? 0)%Z then None
  else Some ((epoch mod frequency_stats =? 0)%Z
             || (epoch =? 0)%Z
             || (epoch =? num_epochs)%Z).

(** * Definitions for the properties *)

(** The contributions of the rounds, added from the first to the last. *)
Definition sum_from (D : dtype) (first : scalar D) (rest : list (scalar D))
  : scalar D :=
  fold_left (d_add D) rest first.

(** A mask entry that selects: one equal to 1. *)
Definition is_one (m : R) : bool := if Req_dec_T m 1%R then true else false.

(** The number of entries a mask selects: the entries equal to 1. *)
Definition selected (mask : tensor real) : nat :=
  length (filter is_one (concat mask)).

(** ** [forward] as a recurrence *)

Section Recurrence.
Variable D : dtype.
Variable Gen : Type.
Variable Sequential_init : nat -> Gen -> (tensor D -> tensor D) * Gen.

(** Encoder, latent layer, decoder and output projection on a round's
    residual input [x1]; the locals after the round. *)
Definition next_locals (layers : AutoEncoder D) (l : locals D)
    (x1 : tensor D) : locals D :=
  let latent_features := latent_layer D layers (encode D layers x1) in
  let x3 := decode D layers latent_features in
  let out := output_layer D layers x3 in
  {| x := x3;
     output := Some out;
     latent_features_list := latent_features_list D l ++ [latent_features];
     output_list := output_list D l ++ [out] |}.

(** The residual input of round 0 and of a later round, from the raw input
    [inp], the batch correction [b] and, for a later round, the imputation
    function [f] and the previous round's output [o]. *)
Definition residual0 (inp b : tensor D) : tensor D :=
  F_relu D (torch_sub D inp b).

Definition residual (f : tensor D -> tensor D) (inp b o : tensor D)
  : tensor D :=
  F_relu D (torch_sub D (torch_add D (impute_merge D inp (f o)) inp) b).

Definition previous_output (l : locals D) : tensor D :=
  match output D l with
  | Some o => o
  | None => []
  end.

Definition impute_round (layers : AutoEncoder D) (f : tensor D -> tensor D)
    (inp b : tensor D) (l : locals D) : locals D :=
  next_locals layers l (residual f inp b (previous_output l)).

Fixpoint impute_rounds (layers : AutoEncoder D) (f : tensor D -> tensor D)
    (inp b : tensor D) (n : nat) (l : locals D) : locals D :=
  match n with
  | O => l
  | S n' => impute_rounds layers f inp b n' (impute_round layers f inp b l)
  end.

Definition round_latent (layers : AutoEncoder D) (x1 : tensor D) : tensor D :=
  latent_layer D layers (encode D layers x1).

Definition round_output (layers : AutoEncoder D) (x1 : tensor D) : tensor D :=
  output_layer D layers (decode D layers (round_latent layers x1)).

(** The outputs and the latents of [n] rounds that follow a round whose
    output was [o]. *)
Fixpoint later_outputs (layers : AutoEncoder D) (f : tensor D -> tensor D)
    (inp b : tensor D) (n : nat) (o : tensor D) : list (tensor D) :=
  match n with
  | O => []
  | S n' =>
      let o' := round_output layers (residual f inp b o) in
      o' :: later_outputs layers f inp b n' o'
  end.

Fixpoint later_latents (layers : AutoEncoder D) (f : tensor D -> tensor D)
    (inp b : tensor D) (n : nat) (o : tensor D) : list (tensor D) :=
  match n with
  | O => []
  | S n' =>
      round_latent layers (residual f inp b o)
      :: later_latents layers f inp b n'
           (round_output layers (residual f inp b o))
  end.

(** The outputs and the latents of the [n] rounds of a forward pass. *)
Definition rounds_outputs (layers : AutoEncoder D) (f : tensor D -> tensor D)
    (inp b : tensor D) (n : nat) : list (tensor D) :=
  match n with
  | O => []
  | S k =>
      round_output layers (residual0 inp b)
      :: later_outputs layers f inp b k
           (round_output layers (residual0 inp b))
  end.

Definition rounds_latents (layers : AutoEncoder D) (f : tensor D -> tensor D)
    (inp b : tensor D) (n : nat) : list (tensor D) :=
  match n with
  | O => []
  | S k =>
      round_latent layers (residual0 inp b)
      :: later_latents layers f inp b k
           (round_output layers (residual0 inp b))
  end.

Definition add_events (evs : list event) (w : world D Gen) : world D Gen :=
  {| self := self w; rng := rng w; next_id := next_id w;
     trace := evs ++ trace w |}.

(** The world after the lines of [forward] that precede the loop. *)
Definition before_rounds (inp exp_batch_input : tensor D) (w : world D Gen)
  : world D Gen :=
  {| self := set_batch_effect_removal_layer D
               (F_linear D (batch_effect_layer (self w)) exp_batch_input)
               (set_input D inp (self w));
     rng := rng w;
     next_id := next_id w;
     trace := EvBatchEffect :: trace w |}.

(** The world after the construction in round 1. *)
Definition constructed (w : world D Gen) : world D Gen :=
  {| self := set_imputation_model D
               {| mod_id := next_id w;
                  mod_forward :=
                    fst (Sequential_init (input_dim (self w)) (rng w)) |}
               (self w);
     rng := snd (Sequential_init (input_dim (self w)) (rng w));
     next_id := S (next_id w);
     trace := EvConstruct (next_id w) :: trace w |}.

Definition impute_events (id : nat) (range : list nat) : list event :=
  rev (map (fun i => EvImpute i id) range).

(** The events of one forward pass, newest first. *)
Definition pass_events (id : nat) (n : nat) : list event :=
  match n with
  | O | S O => [EvBatchEffect]
  | S (S k) =>
      impute_events id (seq 1 (S k)) ++ [EvConstruct id; EvBatchEffect]
  end.

(** The locals and the world at the end of the loop. *)
Definition after_rounds (inp exp_batch_input : tensor D) (w : world D Gen)
  : locals D * world D Gen :=
  let b := F_linear D (batch_effect_layer (self w)) exp_batch_input in
  let layers := base (self w) in
  let l0 := {| x := inp; output := None;
               latent_features_list := []; output_list := [] |} in
  let w0 := before_rounds inp exp_batch_input w in
  match Z.to_nat (t (self w)) with
  | O => (l0, w0)
  | S O => (next_locals layers l0 (residual0 inp b), w0)
  | S (S k) =>
      let f := fst (Sequential_init (input_dim (self w)) (rng w)) in
      (impute_rounds layers f inp b (S k)
         (next_locals layers l0 (residual0 inp b)),
       add_events (impute_events (next_id w) (seq 1 (S k))) (constructed w0))
  end.

End Recurrence.

Arguments next_locals {D} _ _ _.
Arguments residual0 {D} _ _.
Arguments residual {D} _ _ _ _.
Arguments previous_output {D} _.
Arguments impute_round {D} _ _ _ _ _.
Arguments impute_rounds {D} _ _ _ _ _ _.
Arguments round_latent {D} _ _.
Arguments round_output {D} _ _.
Arguments later_outputs {D} _ _ _ _ _ _.
Arguments later_latents {D} _ _ _ _ _ _.
Arguments rounds_outputs {D} _ _ _ _ _.
Arguments rounds_latents {D} _ _ _ _ _.
Arguments add_events {D Gen} _ _.
Arguments before_rounds {D Gen} _ _ _.
Arguments constructed {D Gen} _ _.
Arguments after_rounds {D Gen} _ _ _ _.

(** ** The batch indicator *)

(** In the multi-batch case every row of the indicator is this row: the
    zero row of [k] columns with the columns [cols] set to 1. *)
Definition indicator_row (k : nat) (cols : list nat) : list Z :=
  set_columns (repeat 0%Z k) cols 1%Z.

(** The one-hot matrix proper: in the row of each cell, only the column of
    the cell's own label, [label - 1], is 1. *)
Definition one_hot_per_cell (k : nat) (labels : list Z) : ndarray :=
  map (fun label =>
         map (fun j => if Z.eqb (Z.of_nat j) (label - 1) then 1%Z else 0%Z)
             (seq 0 k))
      labels.

(** ** A concrete model *)

(** A model over binary32 whose inherited layers are the identity and whose
    [g]-th imputation network adds [g] to every entry. *)
Definition identity_layers : AutoEncoder float32 :=
  {| encode := fun a => a;
     latent_layer := fun a => a;
     decode := fun a => a;
     output_layer := fun a => a |}.

Definition toy_init (input_dim : nat) (g : nat)
  : (tensor float32 -> tensor float32) * nat :=
  (fun a => add_scalar float32 a (F32.of_Z (Z.of_nat g)), S g).

Definition toy_input : tensor float32 := [[F32.of_Z 1; F32.of_Z 0]].

Definition toy_batch : tensor float32 := [[F32.of_Z 1]].

Definition toy_world (rounds : Z) : world float32 nat :=
  {| self := scScope_init float32 toy_input identity_layers toy_batch rounds;
     rng := 0%nat;
     next_id := 0%nat;
     trace := [] |}.

(** The world after one and after two forward calls on a model with
    [t = 2]. *)
Definition after_first_call : world float32 nat :=
  snd (forward toy_init toy_input toy_batch (toy_world 2)).

Definition after_second_call : world float32 nat :=
  snd (forward toy_init toy_input toy_batch after_first_call).

(** What the stored imputation network maps the zero entry to. *)
Definition stored_network_at_zero (w : world float32 nat)
  : option (tensor float32) :=
  option_map (fun net : nn_Module float32 => mod_forward net [[F32.zero]])
             (imputation_model (self w)).

(** ** Shapes and masks *)

(** Two tensors of the same shape: as many rows, rows of the same length. *)
Definition same_shape {D D' : dtype} (a : tensor D) (b : tensor D') : Prop :=
  Forall2 (fun r r' => length r = length r') a b.

(** The arguments [forward] is written for, on the model [m]: an input of
    cells x genes and an indicator of cells x batches.  There is at least
    one cell and one gene; the batch-effect weight has one row per gene,
    [input_dim] of them, as [__init__] builds it; the indicator has one row
    per cell, each as wide as the rows of the batch-effect weight (on
    another width [nn.Linear] raises a RuntimeError); every row of the input
    has one entry per row of the weight, so that the batch correction has
    the shape of the input (on another shape the subtraction broadcasts or
    raises). *)
Definition shapes_fit {D : dtype} (m : scScope D)
    (inp exp_batch_input : tensor D) : Prop :=
  inp <> []
  /\ batch_effect_layer m <> []
  /\ length (batch_effect_layer m) = input_dim m
  /\ length exp_batch_input = length inp
  /\ Forall (fun row =>
               Forall (fun weights => length weights = length row)
                      (batch_effect_layer m))
            exp_batch_input
  /\ Forall (fun row => length row = length (batch_effect_layer m)) inp.

(** The inherited layers, from the encoder to the output projection, and
    every imputation network [forward] may construct on the model [m]
    return a tensor of the shape of the input [inp] on every tensor of that
    shape, as the autoencoder and the network built for the genes of [inp]
    do. *)
Definition layers_keep_shape {D : dtype} {Gen : Type}
    (Sequential_init : nat -> Gen -> (tensor D -> tensor D) * Gen)
    (m : scScope D) (inp : tensor D) : Prop :=
  (forall a, same_shape inp a -> same_shape inp (round_output (base m) a))
  /\ (forall g a, same_shape inp a ->
                  same_shape inp (fst (Sequential_init (input_dim m) g) a)).

(** The 0/1 mask of the entries that are not zero. *)
Definition nonzero_mask (c : tensor real) : tensor real :=
  pointwise real (fun v => if Req_dec_T v 0%R then 0%R else 1%R) c.

(** The stored imputation network, if any, is older than the next object. *)
Definition fresh_ids {D : dtype} {Gen : Type} (w : world D Gen) : Prop :=
  match imputation_model (self w) with
  | Some net => (mod_id net < next_id w)%nat
  | None => True
  end.

(** ** Definitions for the further properties *)

(** Entries with equal squares. *)
Definition same_square (u v : R) : Prop := (u * u = v * v)%R.

(** Two round outputs that agree wherever the corrected input [c] is not
    zero. *)
Definition agree_where_nonzero (c o o' : tensor real) : Prop :=
  same_shape o o'
  /\ forall r k v, entry c r k = Some v -> v <> 0%R ->
                   entry o r k = entry o' r k.

(** A model over the reals: identity layers, an imputation network that
    returns 7 everywhere on one cell with two genes. *)
Definition real_identity_layers : AutoEncoder real :=
  {| encode := fun a => a;
     latent_layer := fun a => a;
     decode := fun a => a;
     output_layer := fun a => a |}.

Definition constant_init (input_dim : nat) (g : unit)
  : (tensor real -> tensor real) * unit :=
  (fun _ => [[7%R; 7%R]], g).

Definition real_input : tensor real := [[5%R; 3%R]].

Definition real_batch : tensor real := [[1%R]].

Definition real_world (rounds : Z) : world real unit :=
  {| self := scScope_init real real_input real_identity_layers real_batch
                          rounds;
     rng := tt;
     next_id := 0%nat;
     trace := [] |}.

(** A dataset of two cells in two batches, and the trainer [__init__]
    builds for it on the model of two rounds. *)
Definition toy_dataset : GeneExpressionDataset :=
  {| nb_cells := 2; num_batches := 2; batch_indices := [[1]; [2]]%Z |}.

Definition two_batch_world : world float32 nat :=
  {| self := scScope_init float32 toy_input identity_layers
                          (torch_tensor float32 [[1; 1]]%Z) 2;
     rng := 0%nat;
     next_id := 0%nat;
     trace := [] |}.

(** A minibatch of two cells with two genes. *)
Definition two_cells : tensor float32 :=
  [[F32.of_Z 1; F32.of_Z 0]; [F32.of_Z 0; F32.of_Z 2]].

Definition toy_trainer : scScopeTrainer float32 nat :=
  {| model := two_batch_world;
     one_hot_batches := torch_tensor float32 [[1; 1]; [1; 1]]%Z;
     use_mask := true;
     optimizer := None;
     current_loss := None |}.

(** * Properties *)

(** ** The loss is the sum of the rounds' contributions *)

Section LossSum.
Variable D : dtype.
Variables mask input_d_corrected input_d : tensor D.

Let term : tensor D -> scalar D := round_loss D mask input_d_corrected input_d.

Lemma loss_loop_from (rest pre : list (tensor D)) (v : scalar D) :
  pre <> [] ->
  loss_loop D (pre ++ rest) mask input_d_corrected input_d
            (seq (length pre) (length rest)) (Some v)
  = Ok (Some (sum_from D v (map term rest))).
Proof.
  revert pre v.
  induction rest as [|o rest IH]; intros pre v Hpre; [reflexivity|].
  cbn [length seq loss_loop].
  unfold loss_step.
  rewrite nth_error_app2, Nat.sub_diag by lia.
  cbn [nth_error].
  destruct (Nat.eqb_spec (length pre) 0) as [E|_].
  - destruct pre; [congruence | discriminate].
  - assert (Hne : pre ++ [o] <> []) by (destruct pre; discriminate).
    specialize (IH (pre ++ [o]) (d_add D v (term o)) Hne).
    rewrite <- app_assoc, length_app, Nat.add_1_r in IH.
    exact IH.
Qed.

Lemma loss_loop_all (o : tensor D) (os : list (tensor D)) :
  loss_loop D (o :: os) mask input_d_corrected input_d
            (seq 0 (length (o :: os))) None
  = Ok (Some (sum_from D (term o) (map term os))).
Proof.
  cbn [length seq loss_loop].
  unfold loss_step at 1.
  cbn [nth_error Nat.eqb].
  apply (loss_loop_from os [o]).
  discriminate.
Qed.
End LossSum.

Lemma loss_nonempty (D : dtype) (o : tensor D) (os : list (tensor D))
    (input_d : tensor D) (use_mask : bool) (b : tensor D) :
  let c := torch_sub D input_d b in
  let mask := val_mask D use_mask c in
  loss D (o :: os) input_d use_mask b
  = Ok (sum_from D (round_loss D mask c input_d o)
                 (map (round_loss D mask c input_d) os)).
Proof.
  intros c mask.
  unfold loss.
  fold c. fold mask.
  rewrite loss_loop_all.
  reflexivity.
Qed.

Lemma loss_empty (D : dtype) (input_d : tensor D) (use_mask : bool)
    (b : tensor D) :
  loss D [] input_d use_mask b = Raise UnboundLocalError.
Proof. reflexivity. Qed.

(** ** Entries of element-wise results *)

Lemma nth_error_zip_with {A B C : Type} (f : A -> B -> C) (l : list A)
    (l' : list B) (n : nat) :
  nth_error (zip_with f l l') n =
  match nth_error l n, nth_error l' n with
  | Some a, Some b => Some (f a b)
  | _, _ => None
  end.
Proof.
  revert l' n.
  induction l as [|a l IH]; intros [|b l'] [|n]; cbn; try reflexivity.
  - destruct (nth_error l n); reflexivity.
  - apply IH.
Qed.

Lemma entry_pointwise2 (D : dtype) (f : scalar D -> scalar D -> scalar D)
    (a b : tensor D) (r c : nat) :
  entry (pointwise2 D f a b) r c =
  match entry a r c, entry b r c with
  | Some u, Some v => Some (f u v)
  | _, _ => None
  end.
Proof.
  unfold entry, pointwise2.
  rewrite nth_error_zip_with.
  destruct (nth_error a r) as [ra|], (nth_error b r) as [rb|]; try reflexivity.
  - apply nth_error_zip_with.
  - destruct (nth_error ra c); reflexivity.
Qed.

Lemma entry_pointwise (D : dtype) (f : scalar D -> scalar D) (a : tensor D)
    (r c : nat) :
  entry (pointwise D f a) r c = option_map f (entry a r c).
Proof.
  unfold entry, pointwise.
  rewrite nth_error_map.
  destruct (nth_error a r) as [ra|]; cbn; [|reflexivity].
  apply nth_error_map.
Qed.

(** ** Real-valued entries *)

Open Scope R_scope.

Lemma Rltb_true (x y : R) : x < y -> Rltb x y = true.
Proof. intros H. unfold Rltb. destruct (Rlt_dec x y); [reflexivity | lra]. Qed.

Lemma Rltb_false (x y : R) : y <= x -> Rltb x y = false.
Proof. intros H. unfold Rltb. destruct (Rlt_dec x y); [lra | reflexivity]. Qed.

Lemma sign_pos (v : R) : 0 < v -> sign real v = 1.
Proof.
  intros H. unfold sign. cbn.
  rewrite Rltb_true, Rltb_false by lra. cbn. lra.
Qed.

Lemma sign_zero : sign real 0 = 0.
Proof.
  unfold sign. cbn.
  rewrite !Rltb_false by lra. cbn. lra.
Qed.

Lemma sign_neg (v : R) : v < 0 -> sign real v = -1.
Proof.
  intros H. unfold sign. cbn.
  rewrite Rltb_false, Rltb_true by lra. cbn. lra.
Qed.

Lemma sum_from_real (first : R) (rest : list R) :
  sum_from real first rest = first + fold_right Rplus 0 rest.
Proof.
  unfold sum_from. cbn.
  revert first.
  induction rest as [|v rest IH]; intros first; cbn; [lra|].
  rewrite IH. lra.
Qed.

Lemma sum_squares_zeros (l : list R) :
  Forall (fun v => v = 0) l -> sum_squares real l = 0.
Proof.
  unfold sum_squares. cbn.
  generalize 0 at 2 3 as acc.
  induction l as [|v l IH]; intros acc H; cbn; [reflexivity|].
  inversion H as [|? ? Hv Hl]; subst.
  rewrite IH by assumption. lra.
Qed.

Lemma zip_with_Rminus_self (l : list R) :
  Forall (fun v => v = 0) (zip_with Rminus l l).
Proof.
  induction l as [|v l IH]; cbn; constructor; [lra | exact IH].
Qed.

Lemma norm_sub_self (a : tensor real) :
  torch_norm real (torch_sub real a a) = 0.
Proof.
  unfold torch_norm. cbn.
  rewrite sum_squares_zeros; [apply sqrt_0|].
  unfold torch_sub, pointwise2. cbn.
  induction a as [|row a IH]; cbn; [constructor|].
  apply Forall_app. split; [apply zip_with_Rminus_self | exact IH].
Qed.

(** ** The reconstruction mask *)

Lemma concat_pointwise (D : dtype) (f : scalar D -> scalar D) (a : tensor D) :
  concat (pointwise D f a) = map f (concat a).
Proof.
  unfold pointwise.
  induction a as [|row a IH]; cbn; [reflexivity|].
  rewrite map_app, IH. reflexivity.
Qed.

Lemma sign_cases (v : R) :
  (0 < v -> sign real v = 1)
  /\ (v = 0 -> sign real v = 0)
  /\ (v < 0 -> sign real v = -1).
Proof.
  repeat split.
  - apply sign_pos.
  - intros ->. apply sign_zero.
  - apply sign_neg.
Qed.

Lemma sign_is_one (v : R) : sign real v = 1 -> 0 < v.
Proof.
  intros H.
  destruct (Rtotal_order 0 v) as [Hlt|[Heq|Hgt]]; [assumption| |].
  - subst v. rewrite sign_zero in H. lra.
  - rewrite (sign_neg v Hgt) in H. lra.
Qed.

Lemma sign_shift_is_one (v : R) :
  sign real v = 1 -> sign real (d_add real v (d_one real)) = 1.
Proof.
  intros H. apply sign_is_one in H.
  apply sign_pos. cbn. lra.
Qed.

Lemma filter_length_le {A : Type} (p q : A -> bool) (f g : A -> A)
    (l : list A) :
  (forall a, p (f a) = true -> q (g a) = true) ->
  (length (filter p (map f l)) <= length (filter q (map g l)))%nat.
Proof.
  intros H.
  induction l as [|a l IH]; cbn; [lia|].
  destruct (p (f a)) eqn:E.
  - rewrite (H a E). cbn. lia.
  - destruct (q (g a)); cbn; lia.
Qed.

Lemma is_one_true (m : R) : is_one m = true <-> m = 1.
Proof.
  unfold is_one.
  destruct (Req_dec_T m 1); split; intros H; congruence.
Qed.

(** C5, as the program has it.  With masking enabled the mask is
    [sign(corrected input)]: 1 where the corrected input is positive, 0
    where it is zero and -1 where it is negative; with masking disabled it is
    [sign(corrected input + 1)]; every entry the enabled mask selects (value
    1) the disabled mask selects too, so the disabled mask selects at least
    as many entries. *)
Theorem mask_is_sign_of_corrected_input (c : tensor real) :
  val_mask real true c = torch_sign real c
  /\ val_mask real false c = torch_sign real (add_scalar real c 1)
  /\ (forall r k v, entry c r k = Some v ->
        exists m, entry (val_mask real true c) r k = Some m
                  /\ (0 < v -> m = 1) /\ (v = 0 -> m = 0) /\ (v < 0 -> m = -1))
  /\ (forall r k, entry (val_mask real true c) r k = Some 1 ->
                  entry (val_mask real false c) r k = Some 1)
  /\ (selected (val_mask real true c) <= selected (val_mask real false c))%nat.
Proof.
  split; [reflexivity|].
  split; [reflexivity|].
  split; [|split].
  - intros r k v Hv.
    exists (sign real v). split.
    + cbn [val_mask]. unfold torch_sign.
      rewrite entry_pointwise, Hv. reflexivity.
    + apply sign_cases.
  - intros r k H.
    cbn [val_mask] in *. unfold torch_sign, add_scalar in *.
    rewrite !entry_pointwise in *.
    destruct (entry c r k) as [v|]; cbn in *; [|discriminate].
    injection H as H.
    f_equal. apply sign_shift_is_one. exact H.
  - unfold selected. cbn [val_mask]. unfold torch_sign, add_scalar.
    rewrite !concat_pointwise, map_map.
    apply filter_length_le.
    intros v H.
    apply is_one_true. apply is_one_true in H.
    apply sign_shift_is_one. exact H.
Qed.

Lemma mask_is_sign_of_corrected_input_witness :
  exists m, entry (val_mask real true [[-2; 0; 3]]) 0%nat 0%nat = Some m
            /\ (0 < -2 -> m = 1) /\ (-2 = 0 -> m = 0) /\ (-2 < 0 -> m = -1).
Proof.
  apply (proj1 (proj2 (proj2 (mask_is_sign_of_corrected_input [[-2; 0; 3]])))
           0%nat 0%nat (-2)).
  reflexivity.
Defined.

(** C5 as stated fails where the corrected input is negative: raw input 0
    with batch correction 2 gives the corrected entry -2, where the enabled
    mask is -1 and not 0. *)
Lemma mask_of_negative_entry_is_minus_one :
  entry (torch_sub real [[0]] [[2]]) 0%nat 0%nat = Some (0 - 2)
  /\ 0 - 2 <= 0
  /\ entry (val_mask real true (torch_sub real [[0]] [[2]])) 0%nat 0%nat
     = Some (-1)
  /\ entry (val_mask real true (torch_sub real [[0]] [[2]])) 0%nat 0%nat
     <> Some 0.
Proof.
  assert (H : entry (val_mask real true (torch_sub real [[0]] [[2]]))
                    0%nat 0%nat = Some (-1)).
  { cbn. f_equal. apply sign_neg. lra. }
  repeat split.
  - lra.
  - exact H.
  - rewrite H. intros E. injection E as E. lra.
Qed.

Close Scope R_scope.

(** ** A zero denominator in the loss (floating point) *)

Section ZeroDenominator.
Variables prec emax : Z.

Lemma div_by_zero_not_finite (n d : spec_float) :
  is_zero d = true ->
  is_finite (SFdiv prec emax n d) = false.
Proof.
  destruct d; try discriminate.
  intros _. destruct n; reflexivity.
Qed.

Lemma add_not_finite (a b : spec_float) :
  is_finite a = false ->
  is_finite (SFadd prec emax a b) = false.
Proof.
  destruct a as [| sa | |]; try discriminate; intros _.
  - destruct b as [| sb | |]; try reflexivity.
    destruct sa, sb; reflexivity.
  - reflexivity.
Qed.

Lemma sum_from_not_finite (rest : list spec_float) (first : spec_float) :
  is_finite first = false ->
  is_finite (sum_from (ieee prec emax) first rest) = false.
Proof.
  revert first.
  induction rest as [|v rest IH]; intros first H; cbn; [exact H|].
  apply IH. apply add_not_finite. exact H.
Qed.

(** C6.  In every IEEE binary format (binary32 is the one the model runs
    on): when the denominator [norm(mask * input)] is zero, the loss of a
    non-empty sequence of round outputs raises nothing; it returns a value,
    and the value is an infinity or a NaN. *)
Theorem loss_zero_denominator_not_finite
    (o : tensor (ieee prec emax)) (os : list (tensor (ieee prec emax)))
    (input_d b : tensor (ieee prec emax)) (use_mask : bool) :
  is_zero
    (torch_norm (ieee prec emax)
       (torch_mul (ieee prec emax)
          (val_mask (ieee prec emax) use_mask
                    (torch_sub (ieee prec emax) input_d b))
          input_d))
  = true ->
  exists v, loss (ieee prec emax) (o :: os) input_d use_mask b = Ok v
            /\ is_finite v = false.
Proof.
  intros Hz.
  eexists. split; [apply loss_nonempty|].
  apply sum_from_not_finite.
  unfold round_loss.
  apply div_by_zero_not_finite. exact Hz.
Qed.
End ZeroDenominator.

Lemma loss_zero_denominator_not_finite_witness :
  exists v, loss float32 [[[F32.of_Z 1]]] [[F32.of_Z 0]] false [[F32.of_Z 0]]
            = Ok v
            /\ is_finite v = false.
Proof.
  apply (loss_zero_denominator_not_finite 24 128
           [[F32.of_Z 1]] [] [[F32.of_Z 0]] [[F32.of_Z 0]] false).
  vm_compute. reflexivity.
Defined.

(** With masking disabled, output 1 against the all-zero input gives 1/0,
    an infinity; with masking enabled the mask is zero everywhere and the
    loss is 0/0, a NaN. *)
Example loss_infinite :
  loss float32 [[[F32.of_Z 1]]] [[F32.of_Z 0]] false [[F32.of_Z 0]]
  = Ok F32.inf.
Proof. vm_compute. reflexivity. Qed.

Example loss_nan :
  loss float32 [[[F32.of_Z 1]]] [[F32.of_Z 0]] true [[F32.of_Z 0]]
  = Ok F32.nan.
Proof. vm_compute. reflexivity. Qed.

(** ** Two rounds, the second exact (floating point) *)

Section SecondRoundExact.
Variables prec emax : Z.

Lemma sub_self_finite (y : spec_float) :
  is_finite y = true -> SFsub prec emax y y = S754_zero false.
Proof.
  destruct y as [[|] | | | s m e]; try discriminate; intros _;
    try reflexivity.
  unfold SFsub. cbn zeta.
  rewrite Z.sub_diag. reflexivity.
Qed.

Lemma zip_with_sub_self (l : list spec_float) :
  Forall (fun y => is_finite y = true) l ->
  Forall (fun y => y = S754_zero false) (zip_with (SFsub prec emax) l l).
Proof.
  induction 1 as [|y l Hy Hl IH]; cbn; constructor.
  - apply sub_self_finite. exact Hy.
  - exact IH.
Qed.

Lemma sum_squares_zeros_ieee (l : list spec_float) :
  Forall (fun y => y = S754_zero false) l ->
  sum_squares (ieee prec emax) l = S754_zero false.
Proof.
  unfold sum_squares. cbn [d_zero ieee].
  induction 1 as [|y l Hy Hl IH]; cbn [fold_left]; [reflexivity|].
  subst y. exact IH.
Qed.

Lemma norm_sub_self_ieee (a : tensor (ieee prec emax)) :
  Forall (Forall (fun y => is_finite y = true)) a ->
  torch_norm (ieee prec emax) (torch_sub (ieee prec emax) a a)
  = S754_zero false.
Proof.
  intros H.
  unfold torch_norm.
  rewrite sum_squares_zeros_ieee; [reflexivity|].
  unfold torch_sub, pointwise2. cbn [d_sub ieee].
  induction H as [|row a Hrow Ha IH]; cbn [zip_with concat]; [constructor|].
  apply Forall_app. split; [apply zip_with_sub_self; exact Hrow | exact IH].
Qed.

Lemma binary_round_aux_sign (m e : Z) (l : location) :
  sign_bit (binary_round_aux prec emax false m e l) = false.
Proof.
  unfold binary_round_aux.
  destruct (shr_fexp prec emax m e l) as [mrs e'].
  destruct (shr_fexp prec emax _ e' loc_Exact) as [mrs' e''].
  destruct (shr_m mrs') as [|p|p]; try reflexivity.
  destruct (e'' <=? emax - prec)%Z; reflexivity.
Qed.

Lemma binary_round_sign (m : positive) (e : Z) :
  sign_bit (binary_round prec emax false m e) = false.
Proof.
  unfold binary_round.
  destruct (shl_align m e _) as [mz ez].
  apply binary_round_aux_sign.
Qed.

Lemma mul_self_sign (v : spec_float) :
  sign_bit (SFmul prec emax v v) = false.
Proof.
  destruct v as [s | s | | s m e]; cbn [SFmul];
    rewrite ?xorb_nilpotent; try reflexivity.
  apply binary_round_aux_sign.
Qed.

Lemma add_sign (a b : spec_float) :
  sign_bit a = false -> sign_bit b = false ->
  sign_bit (SFadd prec emax a b) = false.
Proof.
  destruct a as [[|] | [|] | | [|] ma ea]; try discriminate;
    destruct b as [[|] | [|] | | [|] mb eb]; try discriminate;
    intros _ _; try reflexivity.
  unfold SFadd. cbn [cond_Zopp Z.add].
  apply binary_round_sign.
Qed.

Lemma sum_squares_sign (l : list spec_float) :
  sign_bit (sum_squares (ieee prec emax) l) = false.
Proof.
  unfold sum_squares. cbn [d_zero d_add d_mul ieee].
  assert (H : sign_bit (S754_zero false) = false) by reflexivity.
  revert H. generalize (S754_zero false) as acc.
  induction l as [|v l IH]; intros acc H; cbn [fold_left]; [exact H|].
  apply IH. apply add_sign; [exact H | apply mul_self_sign].
Qed.

Lemma sqrt_sign (y : spec_float) :
  sign_bit y = false -> sign_bit (SFsqrt prec emax y) = false.
Proof.
  destruct y as [[|] | [|] | | [|] m e]; try discriminate; intros _;
    try reflexivity.
  unfold SFsqrt.
  destruct (SFsqrt_core_binary prec emax (Z.pos m) e) as [[mz ez] lz].
  apply binary_round_aux_sign.
Qed.

Lemma torch_norm_sign (a : tensor (ieee prec emax)) :
  sign_bit (torch_norm (ieee prec emax) a) = false.
Proof.
  unfold torch_norm. cbn [d_sqrt ieee].
  apply sqrt_sign, sum_squares_sign.
Qed.

Lemma div_sign (a b : spec_float) :
  sign_bit a = false -> sign_bit b = false ->
  sign_bit (SFdiv prec emax a b) = false.
Proof.
  destruct a as [[|] | [|] | | [|] ma ea]; try discriminate;
    destruct b as [[|] | [|] | | [|] mb eb]; try discriminate;
    intros _ _; try reflexivity.
  unfold SFdiv.
  destruct (SFdiv_core_binary prec emax (Z.pos ma) ea (Z.pos mb) eb)
    as [[mz ez] lz].
  apply binary_round_aux_sign.
Qed.

Lemma zero_div_is_zero (d : spec_float) :
  sign_bit d = false -> is_zero d = false -> d <> S754_nan ->
  SFdiv prec emax (S754_zero false) d = S754_zero false.
Proof.
  destruct d as [s | [|] | | [|] m e]; try discriminate; try congruence;
    reflexivity.
Qed.

Lemma add_zero_same (a : spec_float) :
  sign_bit a = false -> SFadd prec emax a (S754_zero false) = a.
Proof.
  destruct a as [[|] | [|] | | [|] m e]; try discriminate; reflexivity.
Qed.

(** Over every IEEE binary format: two rounds, the second round's output
    agreeing with the corrected input on the mask, the masked target
    finite, the denominator neither zero nor NaN.  The loss is the first
    round's term. *)
Lemma loss_two_rounds_ieee
    (o1 o2 input_d b : tensor (ieee prec emax)) (use_mask : bool) :
  let D := ieee prec emax in
  let c := torch_sub D input_d b in
  let mask := val_mask D use_mask c in
  torch_mul D mask o2 = torch_mul D mask c ->
  Forall (Forall (fun y => is_finite y = true)) (torch_mul D mask c) ->
  is_zero (torch_norm D (torch_mul D mask input_d)) = false ->
  torch_norm D (torch_mul D mask input_d) <> S754_nan ->
  loss D [o1; o2] input_d use_mask b = Ok (round_loss D mask c input_d o1).
Proof.
  intros D c mask H Hfin Hz Hnan.
  rewrite loss_nonempty.
  fold D. fold c. fold mask.
  unfold sum_from. cbn [map fold_left d_add D ieee].
  f_equal.
  unfold round_loss at 2.
  rewrite H, norm_sub_self_ieee by exact Hfin.
  cbn [d_div D ieee].
  rewrite zero_div_is_zero by (assumption || apply torch_norm_sign).
  apply add_zero_same.
  unfold round_loss. cbn [d_div D ieee].
  apply div_sign; apply torch_norm_sign.
Qed.
End SecondRoundExact.

(** ** The merge rule *)

Lemma sign_positive_float32 (x : spec_float) :
  SFltb F32.zero x = true -> sign float32 x = d_one float32.
Proof.
  intros Hx.
  unfold sign. cbn [d_ltb d_zero float32 ieee].
  change (S754_zero false) with F32.zero. rewrite Hx.
  replace (SFltb x F32.zero) with false
    by (destruct x as [| [|] | | [|] ]; cbn in *; congruence).
  vm_compute. reflexivity.
Qed.

Lemma sign_zero_float32 (x : spec_float) :
  is_zero x = true -> sign float32 x = F32.zero.
Proof.
  destruct x as [s | | |]; try discriminate.
  intros _. reflexivity.
Qed.

(** The merge rule over binary32: where the raw input is positive, the
    imputed contribution of a finite imputed value is a zero. *)
Lemma merge_zero_at_observed_float32 (x v : spec_float) :
  SFltb F32.zero x = true ->
  is_finite v = true ->
  is_zero (d_mul float32 (d_sub float32 (d_one float32) (sign float32 x)) v)
  = true.
Proof.
  intros Hx Hv.
  rewrite (sign_positive_float32 x Hx).
  destruct v as [sv | | | sv mv ev]; try discriminate; vm_compute;
    reflexivity.
Qed.

(** Adding a zero to a positive number or to [+inf] gives it back. *)
Lemma add_zero_to_positive_float32 (z x : spec_float) :
  is_zero z = true -> SFltb F32.zero x = true -> d_add float32 z x = x.
Proof.
  destruct z as [sz | | |]; try discriminate.
  intros _ Hx.
  destruct x as [sx | sx | | sx m e]; try discriminate; reflexivity.
Qed.

(** Multiplying by 1 returns every binary32 number as it is: the product of
    the significands is shifted back by the 23 bits of the significand of
    1, and nothing is rounded off. *)
Lemma mul_one_float32 (v : spec_float) :
  valid_binary 24 128 v = true ->
  d_mul float32 (d_one float32) v = v.
Proof.
  intros Hv.
  cbn [d_mul d_one float32 ieee].
  change (SFone 24 128) with (S754_finite false 8388608 (-23)).
  destruct v as [s | s | | s m e]; try reflexivity.
  cbn [valid_binary] in Hv.
  unfold bounded, canonical_mantissa in Hv.
  apply andb_prop in Hv. destruct Hv as [Hc He].
  apply Z.eqb_eq in Hc.
  unfold SFmul. cbn [xorb].
  change (8388608 * m)%positive
    with (m~0~0~0~0~0~0~0~0~0~0~0~0~0~0~0~0~0~0~0~0~0~0~0)%positive.
  unfold binary_round_aux, shr_fexp.
  cbn [shr_record_of_loc Zdigits2 digits2_pos].
  unfold fexp, emin in *.
  match goal with
  | |- context [shr _ (-23 + e)%Z ?n] => replace n with 23%Z by lia
  end.
  cbn [shr iter_pos shr_1 shr_m shr_r shr_s orb loc_of_shr_record
       round_nearest_even Zdigits2].
  replace (-23 + e + 23)%Z with e by lia.
  match goal with
  | |- context [shr _ e ?n] => replace n with 0%Z by lia
  end.
  cbn [shr shr_m].
  rewrite He. reflexivity.
Qed.

Open Scope R_scope.

(** C4, as the program has it.  For a raw input whose entries are all >= 0
    and an imputed estimate that is finite (no infinity, no NaN),
    [imputed * (1 - sign(input))] is exactly 0 at every entry where the raw
    input is nonzero, so adding it to the input leaves the observed value as
    it is; at an entry where the raw input is exactly zero it is the imputed
    estimate.  Over the reals every estimate is finite; over binary32 the
    zero may be [-0], and the observed value is returned bit for bit. *)
Theorem merge_leaves_observed_entries :
  (forall (inp imputed : tensor real) (r c : nat) (x v : R),
     (forall r' c' y, entry inp r' c' = Some y -> 0 <= y) ->
     entry inp r c = Some x ->
     entry imputed r c = Some v ->
     (x <> 0 ->
      entry (impute_merge real inp imputed) r c = Some 0
      /\ entry (torch_add real (impute_merge real inp imputed) inp) r c
         = Some x)
     /\ (x = 0 -> entry (impute_merge real inp imputed) r c = Some v))
  /\ (forall (inp imputed : tensor float32) (r c : nat) (x v : spec_float),
        entry inp r c = Some x ->
        entry imputed r c = Some v ->
        (SFltb F32.zero x = true ->
         is_finite v = true ->
         exists z,
           entry (impute_merge float32 inp imputed) r c = Some z
           /\ is_zero z = true
           /\ entry (torch_add float32 (impute_merge float32 inp imputed) inp)
                    r c
              = Some x)
        /\ (is_zero x = true ->
            valid_binary 24 128 v = true ->
            entry (impute_merge float32 inp imputed) r c = Some v)).
Proof.
  split.
  - intros inp imputed r c x v Hnonneg Hx Hv.
    assert (Hm : entry (impute_merge real inp imputed) r c
                 = Some ((1 - sign real x) * v)).
    { unfold impute_merge, torch_mul, rsub_scalar, torch_sign.
      rewrite entry_pointwise2, !entry_pointwise, Hx, Hv.
      reflexivity. }
    split.
    + intros Hne.
      assert (Hpos : 0 < x) by (specialize (Hnonneg r c x Hx); lra).
      unfold torch_add.
      rewrite entry_pointwise2, Hm, Hx, (sign_pos x Hpos).
      split; f_equal; cbn; lra.
    + intros ->.
      rewrite Hm, sign_zero.
      f_equal. lra.
  - intros inp imputed r c x v Hx Hv.
    assert (Hm : entry (impute_merge float32 inp imputed) r c
                 = Some (d_mul float32
                           (d_sub float32 (d_one float32) (sign float32 x))
                           v)).
    { unfold impute_merge, torch_mul, rsub_scalar, torch_sign.
      rewrite entry_pointwise2, !entry_pointwise, Hx, Hv.
      reflexivity. }
    split.
    + intros Hpos Hfin.
      eexists. split; [exact Hm|].
      split; [apply merge_zero_at_observed_float32; assumption|].
      unfold torch_add.
      rewrite entry_pointwise2, Hm, Hx.
      f_equal.
      apply add_zero_to_positive_float32;
        [apply merge_zero_at_observed_float32; assumption | exact Hpos].
    + intros Hzero Hvalid.
      rewrite Hm, (sign_zero_float32 x Hzero).
      f_equal.
      change (d_sub float32 (d_one float32) F32.zero) with (d_one float32).
      apply mul_one_float32. exact Hvalid.
Qed.

Lemma merge_leaves_observed_entries_witness :
  (entry (impute_merge real [[3; 0]] [[7; 8]]) 0 0 = Some 0
   /\ entry (torch_add real (impute_merge real [[3; 0]] [[7; 8]]) [[3; 0]])
            0 0 = Some 3)
  /\ entry (impute_merge real [[3; 0]] [[7; 8]]) 0 1 = Some 8
  /\ (exists z,
        entry (impute_merge float32 [[F32.of_Z 3; F32.of_Z 0]]
                 [[F32.of_Z 7; F32.of_Z 8]]) 0 0 = Some z
        /\ is_zero z = true
        /\ entry (torch_add float32
                    (impute_merge float32 [[F32.of_Z 3; F32.of_Z 0]]
                       [[F32.of_Z 7; F32.of_Z 8]])
                    [[F32.of_Z 3; F32.of_Z 0]]) 0 0
           = Some (F32.of_Z 3))
  /\ entry (impute_merge float32 [[F32.of_Z 3; F32.of_Z 0]]
              [[F32.of_Z 7; F32.of_Z 8]]) 0 1
     = Some (F32.of_Z 8).
Proof.
  assert (Hnonneg : forall (r' c' : nat) (y : R),
             entry (D := real) [[3; 0]] r' c' = Some y -> 0 <= y).
  { intros [|[|r']] [|[|[|c']]] y H; cbn in H; inversion H; lra. }
  split; [|split; [|split]].
  - apply (proj1 (proj1 merge_leaves_observed_entries
                    [[3; 0]] [[7; 8]] 0%nat 0%nat 3 7
                    Hnonneg eq_refl eq_refl)).
    lra.
  - apply (proj2 (proj1 merge_leaves_observed_entries
                    [[3; 0]] [[7; 8]] 0%nat 1%nat 0 8
                    Hnonneg eq_refl eq_refl)).
    reflexivity.
  - apply (proj1 (proj2 merge_leaves_observed_entries
                    [[F32.of_Z 3; F32.of_Z 0]] [[F32.of_Z 7; F32.of_Z 8]]
                    0%nat 0%nat (F32.of_Z 3) (F32.of_Z 7)
                    eq_refl eq_refl)).
    + vm_compute. reflexivity.
    + vm_compute. reflexivity.
  - apply (proj2 (proj2 merge_leaves_observed_entries
                    [[F32.of_Z 3; F32.of_Z 0]] [[F32.of_Z 7; F32.of_Z 8]]
                    0%nat 1%nat (F32.of_Z 0) (F32.of_Z 8)
                    eq_refl eq_refl)).
    + vm_compute. reflexivity.
    + vm_compute. reflexivity.
Defined.

Close Scope R_scope.

(** C4 as stated fails for an imputed estimate that is not finite: at the
    observed entry 3 the estimate [+inf] gives the contribution
    [(1 - 1) * inf = 0 * inf], a NaN and not 0, and the merged value is NaN
    where the observed value was 3; the zero entry receives its estimate
    7. *)
Lemma merge_of_infinite_estimate_is_nan :
  entry (impute_merge float32 [[F32.of_Z 3; F32.of_Z 0]]
           [[F32.inf; F32.of_Z 7]]) 0 0
  = Some F32.nan
  /\ is_zero F32.nan = false
  /\ impute_merge float32 [[F32.of_Z 3; F32.of_Z 0]] [[F32.inf; F32.of_Z 7]]
     = [[F32.nan; F32.of_Z 7]]
  /\ torch_add float32
       (impute_merge float32 [[F32.of_Z 3; F32.of_Z 0]]
          [[F32.inf; F32.of_Z 7]])
       [[F32.of_Z 3; F32.of_Z 0]]
     = [[F32.nan; F32.of_Z 7]]
  /\ entry (torch_add float32
              (impute_merge float32 [[F32.of_Z 3; F32.of_Z 0]]
                 [[F32.inf; F32.of_Z 7]])
              [[F32.of_Z 3; F32.of_Z 0]]) 0 0
     <> Some (F32.of_Z 3).
Proof.
  repeat split; try (vm_compute; reflexivity).
  vm_compute. discriminate.
Qed.

(** ** Two rounds, the second exact *)

Open Scope R_scope.

Lemma zip_mask_twice (s : R -> R) (row : list R) :
  Forall (fun v => s v * (s v * v) = s v * v) row ->
  zip_with Rmult (map s row) (zip_with Rmult (map s row) row)
  = zip_with Rmult (map s row) row.
Proof.
  induction 1 as [|v row Hv Hrow IH]; cbn [map zip_with]; [reflexivity|].
  rewrite Hv, IH. reflexivity.
Qed.

Lemma mask_twice (s : R -> R) (c : tensor real) :
  Forall (Forall (fun v => s v * (s v * v) = s v * v)) c ->
  torch_mul real (pointwise real s c) (torch_mul real (pointwise real s c) c)
  = torch_mul real (pointwise real s c) c.
Proof.
  unfold torch_mul, pointwise2, pointwise. cbn [d_mul real].
  induction 1 as [|row c Hrow Hc IH]; cbn [map zip_with]; [reflexivity|].
  apply f_equal2; [apply zip_mask_twice; exact Hrow | exact IH].
Qed.

(** Where no corrected entry is negative the mask is 0 or 1 at every entry,
    and the masked corrected input agrees with the corrected input on the
    mask. *)
Lemma masked_target_agrees (flag : bool) (c : tensor real) :
  Forall (Forall (fun v => 0 <= v)) c ->
  torch_mul real (val_mask real flag c)
            (torch_mul real (val_mask real flag c) c)
  = torch_mul real (val_mask real flag c) c.
Proof.
  intros H.
  destruct flag; cbn [val_mask]; unfold torch_sign.
  - apply mask_twice.
    eapply Forall_impl; [|exact H].
    intros row Hrow.
    eapply Forall_impl; [|exact Hrow].
    intros v Hv. cbn beta.
    destruct (Req_dec_T v 0) as [->|Hne].
    + rewrite sign_zero. lra.
    + rewrite sign_pos by lra. lra.
  - unfold add_scalar.
    replace (pointwise real (sign real)
               (pointwise real (fun v => d_add real v (d_one real)) c))
      with (pointwise real (fun v => sign real (v + 1)) c)
      by (unfold pointwise; rewrite map_map; apply map_ext; intros row;
          rewrite map_map; reflexivity).
    apply mask_twice.
    eapply Forall_impl; [|exact H].
    intros row Hrow.
    eapply Forall_impl; [|exact Hrow].
    intros v Hv. cbn beta.
    rewrite sign_pos by lra. lra.
Qed.

Lemma loss_two_rounds_real (o1 o2 input_d b : tensor real) (flag : bool) :
  let c := torch_sub real input_d b in
  let mask := val_mask real flag c in
  torch_mul real mask o2 = torch_mul real mask c ->
  loss real [o1; o2] input_d flag b = Ok (round_loss real mask c input_d o1).
Proof.
  intros c mask H.
  rewrite loss_nonempty.
  fold c. fold mask.
  rewrite sum_from_real.
  cbn [map fold_right].
  unfold round_loss at 2.
  rewrite H, norm_sub_self.
  f_equal. cbn [d_div real]. lra.
Qed.

(** C3, as the program has it.  For every sequence of round outputs (one per
    round, at least one), raw input, masking mode and batch correction, the
    loss is the sum of the rounds' terms [norm(mask * output_i - mask *
    (input - correction)) / norm(mask * input)], added from the first round
    to the last with no weight and no averaging: the numerator is taken
    against the corrected input, the denominator against the raw input.
    This holds for every element type; over the reals the sum is the usual
    one.  For two rounds whose second output agrees with the corrected input
    on the mask ([mask * output_2 = mask * corrected], which holds for
    [output_2 = mask * corrected] when no corrected entry is negative) the
    loss is the first round's term exactly, provided the denominator is not
    zero: over the reals, and over every IEEE format when the masked target
    is finite and the denominator is not a NaN either. *)
Theorem loss_unweighted_sum_of_rounds :
  (forall (D : dtype) (o : tensor D) (os : list (tensor D))
          (input_d b : tensor D) (use_mask : bool),
     let c := torch_sub D input_d b in
     let mask := val_mask D use_mask c in
     let term := fun out =>
       d_div D (torch_norm D (torch_sub D (torch_mul D mask out)
                                          (torch_mul D mask c)))
               (torch_norm D (torch_mul D mask input_d)) in
     loss D (o :: os) input_d use_mask b
     = Ok (fold_left (d_add D) (map term os) (term o)))
  /\ (forall (o : tensor real) (os : list (tensor real))
             (input_d b : tensor real) (use_mask : bool),
        let c := torch_sub real input_d b in
        let mask := val_mask real use_mask c in
        let term := fun out =>
          torch_norm real (torch_sub real (torch_mul real mask out)
                                          (torch_mul real mask c))
          / torch_norm real (torch_mul real mask input_d) in
        loss real (o :: os) input_d use_mask b
        = Ok (fold_right Rplus 0 (map term (o :: os))))
  /\ (forall (o1 o2 input_d b : tensor real) (use_mask : bool),
        let c := torch_sub real input_d b in
        let mask := val_mask real use_mask c in
        torch_mul real mask o2 = torch_mul real mask c ->
        torch_norm real (torch_mul real mask input_d) <> 0 ->
        loss real [o1; o2] input_d use_mask b
        = Ok (torch_norm real (torch_sub real (torch_mul real mask o1)
                                              (torch_mul real mask c))
              / torch_norm real (torch_mul real mask input_d)))
  /\ (forall (o1 input_d b : tensor real) (use_mask : bool),
        let c := torch_sub real input_d b in
        let mask := val_mask real use_mask c in
        Forall (Forall (fun v => 0 <= v)) c ->
        torch_norm real (torch_mul real mask input_d) <> 0 ->
        loss real [o1; torch_mul real mask c] input_d use_mask b
        = Ok (torch_norm real (torch_sub real (torch_mul real mask o1)
                                              (torch_mul real mask c))
              / torch_norm real (torch_mul real mask input_d)))
  /\ (forall (prec emax : Z) (o1 o2 input_d b : tensor (ieee prec emax))
             (use_mask : bool),
        let D := ieee prec emax in
        let c := torch_sub D input_d b in
        let mask := val_mask D use_mask c in
        torch_mul D mask o2 = torch_mul D mask c ->
        Forall (Forall (fun y => is_finite y = true)) (torch_mul D mask c) ->
        is_zero (torch_norm D (torch_mul D mask input_d)) = false ->
        torch_norm D (torch_mul D mask input_d) <> S754_nan ->
        loss D [o1; o2] input_d use_mask b
        = Ok (SFdiv prec emax
                (torch_norm D (torch_sub D (torch_mul D mask o1)
                                           (torch_mul D mask c)))
                (torch_norm D (torch_mul D mask input_d)))).
Proof.
  split; [|split; [|split; [|split]]].
  - intros D o os input_d b use_mask c mask term.
    apply loss_nonempty.
  - intros o os input_d b use_mask c mask term.
    rewrite loss_nonempty.
    rewrite sum_from_real.
    reflexivity.
  - intros o1 o2 input_d b use_mask c mask H _.
    apply loss_two_rounds_real. exact H.
  - intros o1 input_d b use_mask c mask H _.
    apply loss_two_rounds_real.
    apply masked_target_agrees. exact H.
  - intros prec emax o1 o2 input_d b use_mask D c mask H Hfin Hz Hnan.
    apply loss_two_rounds_ieee; assumption.
Qed.

Lemma loss_unweighted_sum_of_rounds_witness :
  loss real [[[2; 5]]; [[1 - 0; 9]]] [[1; 0]] true [[0; 0]]
  = Ok (torch_norm real
          (torch_sub real
             (torch_mul real
                (val_mask real true (torch_sub real [[1; 0]] [[0; 0]]))
                [[2; 5]])
             (torch_mul real
                (val_mask real true (torch_sub real [[1; 0]] [[0; 0]]))
                (torch_sub real [[1; 0]] [[0; 0]])))
        / torch_norm real
            (torch_mul real
               (val_mask real true (torch_sub real [[1; 0]] [[0; 0]]))
               [[1; 0]]))
  /\ loss float32 [[[F32.of_Z 2; F32.of_Z 5]]; [[F32.of_Z 1; F32.of_Z 9]]]
          [[F32.of_Z 1; F32.of_Z 0]] true [[F32.of_Z 0; F32.of_Z 0]]
     = Ok (SFdiv 24 128
             (torch_norm float32
                (torch_sub float32
                   (torch_mul float32
                      (val_mask float32 true
                         (torch_sub float32 [[F32.of_Z 1; F32.of_Z 0]]
                                    [[F32.of_Z 0; F32.of_Z 0]]))
                      [[F32.of_Z 2; F32.of_Z 5]])
                   (torch_mul float32
                      (val_mask float32 true
                         (torch_sub float32 [[F32.of_Z 1; F32.of_Z 0]]
                                    [[F32.of_Z 0; F32.of_Z 0]]))
                      (torch_sub float32 [[F32.of_Z 1; F32.of_Z 0]]
                                 [[F32.of_Z 0; F32.of_Z 0]]))))
             (torch_norm float32
                (torch_mul float32
                   (val_mask float32 true
                      (torch_sub float32 [[F32.of_Z 1; F32.of_Z 0]]
                                 [[F32.of_Z 0; F32.of_Z 0]]))
                   [[F32.of_Z 1; F32.of_Z 0]]))).
Proof.
  assert (H1 : sign real (1 - 0) = 1) by (apply sign_pos; lra).
  assert (H0 : sign real (0 - 0) = 0)
    by (replace (0 - 0) with 0 by lra; apply sign_zero).
  split.
  - apply (proj1 (proj2 (proj2 loss_unweighted_sum_of_rounds))
             [[2; 5]] [[1 - 0; 9]] [[1; 0]] [[0; 0]] true).
    + cbn -[sign]. rewrite H1, H0.
      apply f_equal2; [|reflexivity].
      apply f_equal2; [lra|].
      apply f_equal2; [lra | reflexivity].
    + cbn -[sign]. rewrite H1, H0.
      apply Rgt_not_eq, sqrt_lt_R0. lra.
  - apply (proj2 (proj2 (proj2 (proj2 loss_unweighted_sum_of_rounds)))
             24%Z 128%Z
             [[F32.of_Z 2; F32.of_Z 5]] [[F32.of_Z 1; F32.of_Z 9]]
             [[F32.of_Z 1; F32.of_Z 0]] [[F32.of_Z 0; F32.of_Z 0]] true).
    + vm_compute. reflexivity.
    + vm_compute.
      apply Forall_cons; [|apply Forall_nil].
      apply Forall_cons; [reflexivity|].
      apply Forall_cons; [reflexivity | apply Forall_nil].
    + vm_compute. reflexivity.
    + vm_compute. discriminate.
Defined.

(** C3 as stated fails in its last clause.  With raw input [[0; 3]] and
    batch correction [[2; 0]] the corrected input is [[-2; 3]] and the mask
    [[-1; 1]]: a second output exactly equal to the masked corrected target,
    [mask * corrected = [[2; 3]]], has the round-2 term [4 / 3], and the
    loss is not the first round's term (the denominator is 3, not zero).
    Over binary32, with the all-zero raw input and no masking the
    denominator is zero: the first round's term is [+inf], the second
    round's is [0 / 0], and the loss is NaN.  And with an infinite masked
    target (raw input 1, correction [-inf]) the second round's numerator is
    the norm of [inf - inf]: the first round's term is [+inf] again and the
    loss is NaN. *)
Lemma loss_second_round_exact_not_first_term :
  val_mask real true (torch_sub real [[0; 3]] [[2; 0]]) = [[-1; 1]]
  /\ torch_mul real (val_mask real true (torch_sub real [[0; 3]] [[2; 0]]))
               (torch_sub real [[0; 3]] [[2; 0]])
     = [[2; 3]]
  /\ torch_norm real
       (torch_mul real (val_mask real true (torch_sub real [[0; 3]] [[2; 0]]))
                  [[0; 3]])
     <> 0
  /\ (exists v,
        loss real [[[0; 0]]; [[2; 3]]] [[0; 3]] true [[2; 0]] = Ok v
        /\ v <> round_loss real
                  (val_mask real true (torch_sub real [[0; 3]] [[2; 0]]))
                  (torch_sub real [[0; 3]] [[2; 0]]) [[0; 3]] [[0; 0]])
  /\ torch_mul float32
       (val_mask float32 false
          (torch_sub float32 [[F32.of_Z 0]] [[F32.of_Z 0]]))
       (torch_sub float32 [[F32.of_Z 0]] [[F32.of_Z 0]])
     = [[F32.zero]]
  /\ round_loss float32
       (val_mask float32 false
          (torch_sub float32 [[F32.of_Z 0]] [[F32.of_Z 0]]))
       (torch_sub float32 [[F32.of_Z 0]] [[F32.of_Z 0]])
       [[F32.of_Z 0]] [[F32.of_Z 1]]
     = F32.inf
  /\ loss float32 [[[F32.of_Z 1]]; [[F32.zero]]] [[F32.of_Z 0]] false
          [[F32.of_Z 0]]
     = Ok F32.nan
  /\ torch_mul float32
       (val_mask float32 true
          (torch_sub float32 [[F32.of_Z 1]] [[S754_infinity true]]))
       (torch_sub float32 [[F32.of_Z 1]] [[S754_infinity true]])
     = [[F32.inf]]
  /\ round_loss float32
       (val_mask float32 true
          (torch_sub float32 [[F32.of_Z 1]] [[S754_infinity true]]))
       (torch_sub float32 [[F32.of_Z 1]] [[S754_infinity true]])
       [[F32.of_Z 1]] [[F32.of_Z 1]]
     = F32.inf
  /\ loss float32 [[[F32.of_Z 1]]; [[F32.inf]]] [[F32.of_Z 1]] true
          [[S754_infinity true]]
     = Ok F32.nan.
Proof.
  assert (Hn : sign real (0 - 2) = -1) by (apply sign_neg; lra).
  assert (Hp : sign real (3 - 0) = 1) by (apply sign_pos; lra).
  assert (Hmask : val_mask real true (torch_sub real [[0; 3]] [[2; 0]])
                  = [[-1; 1]]).
  { cbn -[sign]. rewrite Hn, Hp. reflexivity. }
  split; [exact Hmask|].
  rewrite Hmask.
  split.
  { cbn. apply f_equal2; [|reflexivity].
    apply f_equal2; [lra|].
    apply f_equal2; [lra | reflexivity]. }
  split.
  { cbn. apply Rgt_not_eq, sqrt_lt_R0. lra. }
  split.
  { eexists. split.
    - rewrite loss_nonempty, sum_from_real, Hmask.
      cbn [map fold_right]. reflexivity.
    - intros E.
      assert (Hpos : 0 < round_loss real [[-1; 1]]
                           (torch_sub real [[0; 3]] [[2; 0]])
                           [[0; 3]] [[2; 3]]).
      { unfold round_loss. cbn.
        apply Rdiv_lt_0_compat; apply sqrt_lt_R0; lra. }
      lra. }
  repeat split; vm_compute; reflexivity.
Qed.

Close Scope R_scope.

(** ** [forward] as a recurrence *)

Section ForwardSpec.
Variable D : dtype.
Variable Gen : Type.
Variable Sequential_init : nat -> Gen -> (tensor D -> tensor D) * Gen.

Lemma add_events_nil (w : world D Gen) : add_events [] w = w.
Proof. destruct w. reflexivity. Qed.

Lemma add_events_app (evs evs' : list event) (w : world D Gen) :
  add_events evs (add_events evs' w) = add_events (evs ++ evs') w.
Proof. unfold add_events. cbn. rewrite app_assoc. reflexivity. Qed.

Lemma round_0 (l : locals D) (w : world D Gen) (b : tensor D) :
  batch_effect_removal_layer (self w) = Some b ->
  round Sequential_init 0 l w
  = (Ok (next_locals (base (self w)) l (residual0 (x D l) b)), w).
Proof.
  intros Hb.
  unfold round, bind, read, gets, ret.
  cbn [Nat.eqb].
  rewrite Hb. reflexivity.
Qed.

Lemma round_1 (l : locals D) (w : world D Gen) (inp b o : tensor D) :
  batch_effect_removal_layer (self w) = Some b ->
  input (self w) = Some inp ->
  output D l = Some o ->
  round Sequential_init 1 l w
  = (Ok (impute_round (base (self w))
                      (fst (Sequential_init (input_dim (self w)) (rng w)))
                      inp b l),
     add_events [EvImpute 1 (next_id w)] (constructed Sequential_init w)).
Proof.
  intros Hb Hi Ho.
  unfold round, bind, read, gets, ret, lift, log, modify,
    construct_imputation_model, impute_round, previous_output.
  rewrite Ho. cbn.
  destruct (Sequential_init (input_dim (self w)) (rng w)) as [f g] eqn:E.
  cbn. rewrite Hi. cbn. rewrite Hi. cbn. rewrite Hb.
  unfold add_events, constructed. rewrite E. reflexivity.
Qed.

Lemma round_later (i : nat) (l : locals D) (w : world D Gen)
    (inp b o : tensor D) (net : nn_Module D) :
  (2 <= i)%nat ->
  batch_effect_removal_layer (self w) = Some b ->
  input (self w) = Some inp ->
  imputation_model (self w) = Some net ->
  output D l = Some o ->
  round Sequential_init i l w
  = (Ok (impute_round (base (self w)) (mod_forward net) inp b l),
     add_events [EvImpute i (mod_id net)] w).
Proof.
  intros Hi Hb Hinp Hnet Ho.
  unfold round, bind, read, gets, ret, lift, log, modify,
    impute_round, previous_output.
  destruct i as [|[|i]]; [lia | lia |].
  rewrite Ho. cbn.
  rewrite Hnet. cbn. rewrite Hinp. cbn. rewrite Hinp. cbn. rewrite Hb.
  reflexivity.
Qed.

Lemma for_rounds_later (n k : nat) (l : locals D) (w : world D Gen)
    (inp b o : tensor D) (net : nn_Module D) :
  (2 <= k)%nat ->
  batch_effect_removal_layer (self w) = Some b ->
  input (self w) = Some inp ->
  imputation_model (self w) = Some net ->
  output D l = Some o ->
  for_rounds Sequential_init (seq k n) l w
  = (Ok (impute_rounds (base (self w)) (mod_forward net) inp b n l),
     add_events (impute_events (mod_id net) (seq k n)) w).
Proof.
  revert k l w o.
  induction n as [|n IH]; intros k l w o Hk Hb Hinp Hnet Ho.
  - cbn. unfold ret. rewrite add_events_nil. reflexivity.
  - cbn [seq for_rounds impute_rounds].
    unfold bind.
    rewrite (round_later k l w inp b o net Hk Hb Hinp Hnet Ho).
    erewrite IH;
      [ | lia | exact Hb | exact Hinp | exact Hnet | reflexivity ].
    cbn [self add_events].
    rewrite add_events_app.
    unfold impute_events. cbn [map rev].
    reflexivity.
Qed.
End ForwardSpec.

Arguments round_0 {D Gen} _ _ _ _ _.
Arguments round_1 {D Gen} _ _ _ _ _ _ _ _ _.
Arguments for_rounds_later {D Gen} _ _ _ _ _ _ _ _ _ _ _ _ _ _.

Section ForwardFacts.
Variable D : dtype.
Variable Gen : Type.
Variable Sequential_init : nat -> Gen -> (tensor D -> tensor D) * Gen.

(** [forward] computes the recurrence [after_rounds].  The equation is one
    of the embedding, whose tensor operations are total; it describes the
    program on arguments of the shapes the model is built for ([shapes_fit],
    [layers_keep_shape]), where torch raises nothing, and the properties of
    what [forward] returns are stated under these conditions. *)
Lemma forward_spec (inp exp_batch_input : tensor D) (w : world D Gen) :
  forward Sequential_init inp exp_batch_input w
  = (Ok (output_list D
           (fst (after_rounds Sequential_init inp exp_batch_input w)),
         latent_features_list D
           (fst (after_rounds Sequential_init inp exp_batch_input w)),
         F_linear D (batch_effect_layer (self w)) exp_batch_input),
     snd (after_rounds Sequential_init inp exp_batch_input w)).
Proof.
  unfold forward.
  unfold bind, gets, log, modify.
  cbn [self on_self t set_batch_effect_removal_layer set_input
       batch_effect_layer rng next_id trace].
  change (on_self D Gen _ _) with (before_rounds inp exp_batch_input w).
  unfold after_rounds.
  set (b := F_linear D (batch_effect_layer (self w)) exp_batch_input).
  set (w0 := before_rounds inp exp_batch_input w).
  assert (Hb : batch_effect_removal_layer (self w0) = Some b) by reflexivity.
  assert (Hinp : input (self w0) = Some inp) by reflexivity.
  destruct (Z.to_nat (t (self w))) as [|[|k]]; cbn [seq for_rounds].
  - unfold ret at 1.
    unfold read, ret. rewrite Hb. reflexivity.
  - unfold bind.
    rewrite (round_0 Sequential_init _ w0 b Hb).
    unfold read, ret. rewrite Hb. reflexivity.
  - unfold bind at 1.
    rewrite (round_0 Sequential_init _ w0 b Hb).
    unfold bind at 1.
    erewrite (round_1 Sequential_init _ w0 inp b);
      [ | exact Hb | exact Hinp | reflexivity ].
    erewrite for_rounds_later;
      [ | lia | reflexivity | reflexivity | reflexivity | reflexivity ].
    rewrite add_events_app.
    unfold read, ret.
    cbn [self add_events constructed set_imputation_model
         batch_effect_removal_layer mod_forward mod_id base fst snd].
    rewrite Hb. reflexivity.
Qed.

Lemma later_outputs_length (layers : AutoEncoder D) (f : tensor D -> tensor D)
    (inp b : tensor D) (n : nat) (o : tensor D) :
  length (later_outputs layers f inp b n o) = n.
Proof.
  revert o. induction n as [|n IH]; intros o; cbn; [reflexivity|].
  rewrite IH. reflexivity.
Qed.

Lemma later_latents_length (layers : AutoEncoder D) (f : tensor D -> tensor D)
    (inp b : tensor D) (n : nat) (o : tensor D) :
  length (later_latents layers f inp b n o) = n.
Proof.
  revert o. induction n as [|n IH]; intros o; cbn; [reflexivity|].
  rewrite IH. reflexivity.
Qed.

Lemma impute_rounds_lists (layers : AutoEncoder D) (f : tensor D -> tensor D)
    (inp b : tensor D) (n : nat) (l : locals D) :
  output_list D (impute_rounds layers f inp b n l)
  = output_list D l ++ later_outputs layers f inp b n (previous_output l)
  /\ latent_features_list D (impute_rounds layers f inp b n l)
     = latent_features_list D l
       ++ later_latents layers f inp b n (previous_output l).
Proof.
  revert l.
  induction n as [|n IH]; intros l; cbn [impute_rounds later_outputs
                                          later_latents].
  - rewrite !app_nil_r. split; reflexivity.
  - destruct (IH (impute_round layers f inp b l)) as [Ho Hl].
    rewrite Ho, Hl.
    unfold impute_round, next_locals, previous_output at 1 3.
    cbn [output_list latent_features_list output].
    rewrite <- !app_assoc. split; reflexivity.
Qed.

Lemma after_rounds_lists (inp exp_batch_input : tensor D) (w : world D Gen) :
  let b := F_linear D (batch_effect_layer (self w)) exp_batch_input in
  let f := fst (Sequential_init (input_dim (self w)) (rng w)) in
  let n := Z.to_nat (t (self w)) in
  output_list D (fst (after_rounds Sequential_init inp exp_batch_input w))
  = rounds_outputs (base (self w)) f inp b n
  /\ latent_features_list D
       (fst (after_rounds Sequential_init inp exp_batch_input w))
     = rounds_latents (base (self w)) f inp b n.
Proof.
  intros b f n. subst n.
  unfold after_rounds.
  destruct (Z.to_nat (t (self w))) as [|[|k]]; cbn [fst].
  - split; reflexivity.
  - split; reflexivity.
  - fold b. fold f.
    destruct (impute_rounds_lists (base (self w)) f inp b (S k)
                (next_locals (base (self w))
                   {| x := inp; output := None;
                      latent_features_list := []; output_list := [] |}
                   (residual0 inp b))) as [Ho Hl].
    rewrite Ho, Hl. split; reflexivity.
Qed.

Lemma impute_events_no_construct (id : nat) (range : list nat) :
  filter is_construct (impute_events id range) = [].
Proof.
  unfold impute_events.
  induction range as [|i range IH]; cbn; [reflexivity|].
  rewrite filter_app, IH. reflexivity.
Qed.

Lemma impute_events_no_batch_effect (id : nat) (range : list nat) :
  filter is_batch_effect (impute_events id range) = [].
Proof.
  unfold impute_events.
  induction range as [|i range IH]; cbn; [reflexivity|].
  rewrite filter_app, IH. reflexivity.
Qed.

Lemma after_rounds_trace (inp exp_batch_input : tensor D) (w : world D Gen) :
  trace (snd (after_rounds Sequential_init inp exp_batch_input w))
  = pass_events (next_id w) (Z.to_nat (t (self w))) ++ trace w.
Proof.
  unfold after_rounds, pass_events.
  destruct (Z.to_nat (t (self w))) as [|[|k]]; cbn [snd]; try reflexivity.
  cbn [add_events trace constructed before_rounds next_id].
  rewrite <- app_assoc. reflexivity.
Qed.

Lemma after_rounds_t (inp exp_batch_input : tensor D) (w : world D Gen) :
  t (self (snd (after_rounds Sequential_init inp exp_batch_input w)))
  = t (self w).
Proof.
  unfold after_rounds.
  destruct (Z.to_nat (t (self w))) as [|[|k]]; reflexivity.
Qed.

Lemma after_rounds_batch_effect_removal_layer
    (inp exp_batch_input : tensor D) (w : world D Gen) :
  batch_effect_removal_layer
    (self (snd (after_rounds Sequential_init inp exp_batch_input w)))
  = Some (F_linear D (batch_effect_layer (self w)) exp_batch_input).
Proof.
  unfold after_rounds.
  destruct (Z.to_nat (t (self w))) as [|[|k]]; reflexivity.
Qed.
End ForwardFacts.

Arguments forward_spec {D Gen} _ _ _ _.
Arguments after_rounds_lists {D Gen} _ _ _ _.
Arguments after_rounds_trace {D Gen} _ _ _ _.
Arguments after_rounds_t {D Gen} _ _ _ _.
Arguments after_rounds_batch_effect_removal_layer {D Gen} _ _ _ _.

Section ForwardClaims.
Variable D : dtype.
Variable Gen : Type.
Variable Sequential_init : nat -> Gen -> (tensor D -> tensor D) * Gen.

(** C7.  On a model with [t >= 0], for every expression matrix (cells x
    genes) and batch indicator (cells x batches) of the shapes the model is
    built for, [forward] returns [t] outputs, [t] latents and the batch
    correction.  The correction is the batch-effect layer applied to the
    indicator: it is computed once, before the first round (it is the oldest
    event of the pass and no later event of the pass is another application),
    and that one value is the correction in the residual input of every
    round, whatever the round index. *)
Theorem forward_returns_rounds_and_correction
    (inp exp_batch_input : tensor D) (w : world D Gen) :
  (0 <= t (self w))%Z ->
  shapes_fit (self w) inp exp_batch_input ->
  layers_keep_shape Sequential_init (self w) inp ->
  let b := F_linear D (batch_effect_layer (self w)) exp_batch_input in
  let f := fst (Sequential_init (input_dim (self w)) (rng w)) in
  exists outs lats w',
    forward Sequential_init inp exp_batch_input w = (Ok (outs, lats, b), w')
    /\ Z.of_nat (length outs) = t (self w)
    /\ Z.of_nat (length lats) = t (self w)
    /\ outs = rounds_outputs (base (self w)) f inp b (Z.to_nat (t (self w)))
    /\ lats = rounds_latents (base (self w)) f inp b (Z.to_nat (t (self w)))
    /\ batch_effect_removal_layer (self w') = Some b
    /\ exists evs, trace w' = evs ++ EvBatchEffect :: trace w
                   /\ filter is_batch_effect evs = [].
Proof.
  intros Ht _ _ b f.
  destruct (after_rounds_lists Sequential_init inp exp_batch_input w)
    as [Ho Hl].
  fold b in Ho, Hl. fold f in Ho, Hl.
  eexists _, _, _.
  split; [apply forward_spec|].
  rewrite Ho, Hl.
  repeat split.
  - unfold rounds_outputs.
    destruct (Z.to_nat (t (self w))) as [|k] eqn:E; cbn [length].
    + lia.
    + rewrite later_outputs_length. lia.
  - unfold rounds_latents.
    destruct (Z.to_nat (t (self w))) as [|k] eqn:E; cbn [length].
    + lia.
    + rewrite later_latents_length. lia.
  - apply after_rounds_batch_effect_removal_layer.
  - rewrite after_rounds_trace.
    unfold pass_events.
    destruct (Z.to_nat (t (self w))) as [|[|k]].
    + exists []. split; reflexivity.
    + exists []. split; reflexivity.
    + exists (impute_events (next_id w) (seq 1 (S k))
              ++ [EvConstruct (next_id w)]).
      split.
      * rewrite <- !app_assoc. reflexivity.
      * rewrite filter_app, impute_events_no_batch_effect. reflexivity.
Qed.

Lemma forward_t1 (inp exp_batch_input : tensor D) (w : world D Gen) :
  t (self w) = 1%Z ->
  exists r,
    forward Sequential_init inp exp_batch_input w
    = (Ok r, before_rounds inp exp_batch_input w).
Proof.
  intros Ht.
  eexists. rewrite forward_spec.
  unfold after_rounds. rewrite Ht. reflexivity.
Qed.

Lemma forward_calls_t1 (calls : list (tensor D * tensor D)) (w : world D Gen) :
  t (self w) = 1%Z ->
  exists w',
    forward_calls Sequential_init calls w = (Ok tt, w')
    /\ t (self w') = 1%Z
    /\ imputation_model (self w') = imputation_model (self w)
    /\ constructions (trace w') = constructions (trace w).
Proof.
  revert w.
  induction calls as [|[inp e] calls IH]; intros w Ht.
  - exists w. repeat split; try reflexivity; assumption.
  - cbn [forward_calls]. unfold bind.
    destruct (forward_t1 inp e w Ht) as [r Hr].
    rewrite Hr.
    destruct (IH (before_rounds inp e w) Ht) as (w' & Hrun & Ht' & Him & Hc).
    exists w'. repeat split; assumption.
Qed.

(** C2.  A model instance constructed with [t == 1] never constructs the
    imputation network: any number of forward calls run to their end, and
    afterwards the model has no attribute [imputation_model], no
    construction has happened, and its parameters are those of the encoder,
    the latent layer, the decoder, the output projection and the
    batch-effect layer. *)
Theorem no_imputation_model_when_t_is_1
    (input_d : tensor D) (layers : AutoEncoder D) (exp_batch_input : tensor D)
    (g : Gen) (id : nat) (tr : list event)
    (calls : list (tensor D * tensor D)) :
  exists w',
    forward_calls Sequential_init calls
      {| self := scScope_init D input_d layers exp_batch_input 1;
         rng := g; next_id := id; trace := tr |}
    = (Ok tt, w')
    /\ imputation_model (self w') = None
    /\ constructions (trace w') = constructions tr
    /\ parameters (self w')
       = [Encoder; LatentLayer; Decoder; OutputLayer; BatchEffectLayer].
Proof.
  destruct (forward_calls_t1 calls
              {| self := scScope_init D input_d layers exp_batch_input 1;
                 rng := g; next_id := id; trace := tr |} eq_refl)
    as (w' & Hrun & _ & Him & Hc).
  exists w'. repeat split; try assumption.
  unfold parameters. rewrite Him. reflexivity.
Qed.

End ForwardClaims.

(** ** Shapes of the concrete models *)

(** A property of every row of a concrete tensor, row by row. *)
Ltac rows :=
  repeat (cbn beta;
          first [apply Forall_nil | apply Forall_cons | reflexivity]).

Lemma same_shape_pointwise (D : dtype) (f : scalar D -> scalar D)
    (inp a : tensor D) :
  same_shape inp a -> same_shape inp (pointwise D f a).
Proof.
  unfold same_shape, pointwise.
  induction 1 as [|row row' inp a Hrow Hrest IH]; cbn [map].
  - apply Forall2_nil.
  - apply Forall2_cons; [rewrite length_map; exact Hrow | exact IH].
Qed.

(** One row of two entries. *)
Lemma same_shape_one_cell_two_genes (D : dtype) (u v u' v' : scalar D) :
  same_shape (D := D) (D' := D) [[u; v]] [[u'; v']].
Proof. apply Forall2_cons; [reflexivity | apply Forall2_nil]. Qed.

Lemma toy_shapes_fit (rounds : Z) :
  shapes_fit (self (toy_world rounds)) toy_input toy_batch.
Proof.
  unfold shapes_fit. cbn.
  split; [discriminate|].
  split; [discriminate|].
  split; [reflexivity|].
  split; [reflexivity|].
  split; rows.
Qed.

(** Identity layers and the networks of [toy_init], which add a number to
    every entry, keep every shape. *)
Lemma toy_layers_keep_shape (m : scScope float32) (inp : tensor float32) :
  base m = identity_layers ->
  layers_keep_shape toy_init m inp.
Proof.
  intros Hbase. unfold layers_keep_shape. rewrite Hbase.
  split.
  - intros a Ha. exact Ha.
  - intros g a Ha. cbn [toy_init fst]. unfold add_scalar.
    apply same_shape_pointwise. exact Ha.
Qed.

(** The model over the reals, on every input of one cell and two genes. *)
Lemma real_shapes_fit (rounds : Z) (u v : R) :
  shapes_fit (self (real_world rounds)) [[u; v]] real_batch.
Proof.
  unfold shapes_fit. cbn.
  split; [discriminate|].
  split; [discriminate|].
  split; [reflexivity|].
  split; [reflexivity|].
  split; rows.
Qed.

Lemma real_layers_keep_shape (m : scScope real) (inp : tensor real) :
  base m = real_identity_layers ->
  same_shape (D' := real) inp [[7%R; 7%R]] ->
  layers_keep_shape constant_init m inp.
Proof.
  intros Hbase Hshape. unfold layers_keep_shape. rewrite Hbase.
  split.
  - intros a Ha. exact Ha.
  - intros g a _. exact Hshape.
Qed.

(** ** Concrete runs *)

Lemma forward_returns_rounds_and_correction_witness :
  exists outs lats w',
    forward toy_init toy_input toy_batch (toy_world 3)
    = (Ok (outs, lats,
           F_linear float32 (batch_effect_layer (self (toy_world 3)))
                    toy_batch), w')
    /\ Z.of_nat (length outs) = 3%Z
    /\ Z.of_nat (length lats) = 3%Z.
Proof.
  destruct (forward_returns_rounds_and_correction float32 nat toy_init toy_input
              toy_batch (toy_world 3))
    as (outs & lats & w' & H & Ho & Hl & _).
  - cbn. lia.
  - apply toy_shapes_fit.
  - apply toy_layers_keep_shape. reflexivity.
  - exists outs, lats, w'. repeat split; assumption.
Defined.

(** C1 fails on the program, at the second forward call.  A model with
    [t = 2] is called twice on the same input of one cell and two genes with
    its indicator of one batch, shapes the model is built for.  The first
    call constructs the imputation network 0, whose weights add 0, and
    stores it on the model.  The second call does not reuse the stored
    network: it constructs the network 1, whose weights are drawn anew (they
    add 1), applies that one in its round 1 and stores it in place of the
    first.  Two calls, two constructions, where the claim has one. *)
Lemma imputation_reconstructed_by_second_forward :
  shapes_fit (self (toy_world 2)) toy_input toy_batch
  /\ layers_keep_shape toy_init (self (toy_world 2)) toy_input
  /\ trace after_first_call = [EvImpute 1 0; EvConstruct 0; EvBatchEffect]
  /\ option_map mod_id (imputation_model (self after_first_call)) = Some 0%nat
  /\ stored_network_at_zero after_first_call = Some [[F32.of_Z 0]]
  /\ trace after_second_call
     = [EvImpute 1 1; EvConstruct 1; EvBatchEffect;
        EvImpute 1 0; EvConstruct 0; EvBatchEffect]
  /\ option_map mod_id (imputation_model (self after_second_call))
     = Some 1%nat
  /\ stored_network_at_zero after_second_call = Some [[F32.of_Z 1]]
  /\ constructions (trace after_second_call) = 2%nat
  /\ constructions (trace after_second_call) <> 1%nat.
Proof.
  split; [apply toy_shapes_fit|].
  split; [apply toy_layers_keep_shape; reflexivity|].
  repeat split; try (vm_compute; reflexivity).
  vm_compute. discriminate.
Qed.

(** ** [predict] *)

Lemma predict_never_returns (D : dtype) (Gen : Type)
    (Sequential_init : nat -> Gen -> (tensor D -> tensor D) * Gen)
    (input_d : tensor D) (batch_data : ndarray) (w : world D Gen) :
  fst (predict Sequential_init input_d batch_data w)
  = match predict_one_hot_batches batch_data with
    | Ok _ => Raise AttributeError
    | Raise e => Raise e
    end.
Proof.
  unfold predict.
  unfold bind at 1. unfold lift at 1.
  destruct (predict_one_hot_batches batch_data) as [a|e]; [|reflexivity].
  unfold bind at 1.
  rewrite forward_spec.
  reflexivity.
Qed.

(** C8 fails on the program.  With one cell, one batch label and a model of
    one round, [predict] builds the indicator and runs [forward], then
    calls [.detach()] on the list of outputs [forward] returned and raises
    AttributeError: it returns nothing. *)
Theorem predict_raises_AttributeError :
  predict_one_hot_batches [[1%Z]] = Ok [[1%Z]]
  /\ fst (forward toy_init toy_input (torch_tensor float32 [[1%Z]])
                  (toy_world 1))
     = Ok ([toy_input], [toy_input], [[F32.zero; F32.zero]])
  /\ fst (predict toy_init toy_input [[1%Z]] (toy_world 1))
     = Raise AttributeError.
Proof.
  repeat split; vm_compute; reflexivity.
Qed.

(** ** The batch indicator *)

Lemma concat_repeat_singleton (v : Z) (n : nat) :
  concat (repeat [v] n) = repeat v n.
Proof. induction n as [|n IH]; cbn; [|rewrite IH]; reflexivity. Qed.

Lemma nodup_repeat (v : Z) (n : nat) :
  nodup Z.eq_dec (repeat v n) = match n with O => [] | S _ => [v] end.
Proof.
  induction n as [|n IH]; [reflexivity|].
  cbn [repeat nodup].
  destruct (in_dec Z.eq_dec v (repeat v n)) as [Hin|Hnin].
  - rewrite IH. destruct n; [destruct Hin | reflexivity].
  - destruct n; [reflexivity|].
    exfalso. apply Hnin. left. reflexivity.
Qed.

Lemma np_unique_single_label (v : Z) (n : nat) :
  (length (np_unique (repeat [v] n)) <= 1)%nat.
Proof.
  unfold np_unique.
  rewrite concat_repeat_singleton, nodup_repeat.
  destruct n; cbn; lia.
Qed.

Lemma np_ones_like_column (v : Z) (n : nat) :
  np_ones_like (repeat [v] n) = repeat [1%Z] n.
Proof. unfold np_ones_like. rewrite map_repeat. reflexivity. Qed.

(** C9.  When every batch label is the same value [v], in a column of [n]
    cells, the indicator is the column of [n] ones, shape (n, 1): in
    [predict], and in the trainer's setup for a dataset whose [num_batches]
    is the number of its distinct labels. *)
Theorem single_batch_indicator_is_ones :
  (forall (v : Z) (n : nat),
     predict_one_hot_batches (repeat [v] n) = Ok (repeat [1%Z] n))
  /\ (forall (v : Z) (n : nat) (gene_dataset : GeneExpressionDataset),
        batch_indices gene_dataset = repeat [v] n ->
        num_batches gene_dataset
        = length (np_unique (batch_indices gene_dataset)) ->
        trainer_one_hot_batches gene_dataset = Ok (repeat [1%Z] n)).
Proof.
  split.
  - intros v n.
    unfold predict_one_hot_batches.
    destruct (Nat.ltb_spec 1 (length (np_unique (repeat [v] n)))) as [H|_].
    + pose proof (np_unique_single_label v n). lia.
    + rewrite np_ones_like_column. reflexivity.
  - intros v n ds Hb Hn.
    unfold trainer_one_hot_batches.
    rewrite Hn, Hb.
    destruct (Nat.ltb_spec 1 (length (np_unique (repeat [v] n)))) as [H|_].
    + pose proof (np_unique_single_label v n). lia.
    + rewrite np_ones_like_column. reflexivity.
Qed.

Lemma single_batch_indicator_is_ones_witness :
  trainer_one_hot_batches
    {| nb_cells := 3; num_batches := 1;
       batch_indices := [[7]; [7]; [7]]%Z |}
  = Ok [[1]; [1]; [1]]%Z.
Proof.
  apply (proj2 single_batch_indicator_is_ones 7%Z 3%nat
           {| nb_cells := 3; num_batches := 1;
              batch_indices := [[7]; [7]; [7]]%Z |}).
  - reflexivity.
  - reflexivity.
Defined.

Lemma nth_error_list_set {A : Type} (l : list A) (c : nat) (v : A) (j : nat) :
  nth_error (list_set l c v) j
  = if Nat.eqb j c then option_map (fun _ => v) (nth_error l j)
    else nth_error l j.
Proof.
  revert c j.
  induction l as [|a l IH]; intros c j.
  - cbn. destruct j; destruct (Nat.eqb _ c); reflexivity.
  - destruct c as [|c], j as [|j]; cbn; try reflexivity.
    apply IH.
Qed.

Lemma nth_error_set_columns (cols : list nat) (row : list Z) (v : Z)
    (j : nat) :
  nth_error (set_columns row cols v) j
  = option_map (fun a => if existsb (Nat.eqb j) cols then v else a)
               (nth_error row j).
Proof.
  unfold set_columns.
  revert row.
  induction cols as [|c cols IH]; intros row; cbn [fold_left existsb].
  - destruct (nth_error row j); reflexivity.
  - rewrite IH, nth_error_list_set.
    destruct (Nat.eqb j c); destruct (nth_error row j); cbn;
      try reflexivity.
    destruct (existsb (Nat.eqb j) cols); reflexivity.
Qed.

Lemma assign_columns_zeros (k n : nat) (idx : list Z) :
  assign_columns k (np_zeros n k) idx 1%Z
  = match axis_indices k idx with
    | None => Raise IndexError
    | Some cols => Ok (repeat (indicator_row k cols) n)
    end.
Proof.
  unfold assign_columns, np_zeros, indicator_row.
  destruct (axis_indices k idx); [|reflexivity].
  rewrite map_repeat. reflexivity.
Qed.

Lemma axis_indices_one_indexed (k : nat) (labels : list Z) :
  (forall label, In label labels -> (1 <= label <= Z.of_nat k)%Z) ->
  axis_indices k (map (fun label => (label - 1)%Z) labels)
  = Some (map (fun label => Z.to_nat (label - 1)) labels).
Proof.
  induction labels as [|label labels IH]; intros H; [reflexivity|].
  cbn [map axis_indices].
  rewrite IH by (intros l Hl; apply H; right; exact Hl).
  assert (Hl : (1 <= label <= Z.of_nat k)%Z) by (apply H; left; reflexivity).
  unfold axis_index.
  replace (0 <=? label - 1)%Z with true by (symmetry; apply Z.leb_le; lia).
  replace (label - 1 <? Z.of_nat k)%Z with true
    by (symmetry; apply Z.ltb_lt; lia).
  reflexivity.
Qed.

(** C10.  With more than one batch, the indicator built by [predict] and by
    the trainer's setup is one row repeated for every cell (or an IndexError
    when some [label - 1] is not a column index).  In that row a column is 1
    exactly when it is named by some label of the batch-indices vector, and
    for labels in 1..k the columns named are [label - 1] for every label
    occurring anywhere: whole columns are set, not one column per cell.  For
    two cells with the labels 1 and 2 both rows are [1; 1], where the one-hot
    matrix has the rows [1; 0] and [0; 1]. *)
Theorem multi_batch_indicator_repeats_one_row :
  (forall batch_data : ndarray,
     (1 < length (np_unique batch_data))%nat ->
     predict_one_hot_batches batch_data
     = match axis_indices (length (np_unique batch_data))
                          (column_indices batch_data) with
       | None => Raise IndexError
       | Some cols =>
           Ok (repeat (indicator_row (length (np_unique batch_data)) cols)
                      (length batch_data))
       end)
  /\ (forall gene_dataset : GeneExpressionDataset,
        (1 < num_batches gene_dataset)%nat ->
        trainer_one_hot_batches gene_dataset
        = match axis_indices (num_batches gene_dataset)
                             (column_indices (batch_indices gene_dataset)) with
          | None => Raise IndexError
          | Some cols =>
              Ok (repeat (indicator_row (num_batches gene_dataset) cols)
                         (nb_cells gene_dataset))
          end)
  /\ (forall (k : nat) (cols : list nat) (j : nat),
        (j < k)%nat ->
        nth_error (indicator_row k cols) j
        = Some (if existsb (Nat.eqb j) cols then 1%Z else 0%Z))
  /\ (forall (k : nat) (batch : ndarray),
        (forall label, In label (concat batch) ->
                       (1 <= label <= Z.of_nat k)%Z) ->
        axis_indices k (column_indices batch)
        = Some (map (fun label => Z.to_nat (label - 1)) (concat batch)))
  /\ predict_one_hot_batches [[1]; [2]]%Z = Ok [[1; 1]; [1; 1]]%Z
  /\ one_hot_per_cell 2 [1; 2]%Z = [[1; 0]; [0; 1]]%Z.
Proof.
  repeat split.
  - intros batch_data H.
    unfold predict_one_hot_batches.
    apply Nat.ltb_lt in H. rewrite H.
    apply assign_columns_zeros.
  - intros ds H.
    unfold trainer_one_hot_batches.
    apply Nat.ltb_lt in H. rewrite H.
    apply assign_columns_zeros.
  - intros k cols j Hj.
    unfold indicator_row.
    rewrite nth_error_set_columns, nth_error_repeat by exact Hj.
    reflexivity.
  - intros k batch H.
    apply axis_indices_one_indexed. exact H.
Qed.

Lemma multi_batch_indicator_repeats_one_row_witness :
  predict_one_hot_batches [[1]; [2]]%Z = Ok [[1; 1]; [1; 1]]%Z.
Proof.
  rewrite (proj1 multi_batch_indicator_repeats_one_row [[1]; [2]]%Z).
  - reflexivity.
  - cbn. lia.
Defined.

(** Two cells with the labels 1 and 2: both rows of the indicator are
    [1; 1], where the one-hot matrix has [1; 0] and [0; 1]. *)
Example indicator_of_two_batches :
  predict_one_hot_batches [[1]; [2]]%Z = Ok [[1; 1]; [1; 1]]%Z
  /\ trainer_one_hot_batches
       {| nb_cells := 2; num_batches := 2; batch_indices := [[1]; [2]]%Z |}
     = Ok [[1; 1]; [1; 1]]%Z
  /\ one_hot_per_cell 2 [1; 2]%Z = [[1; 0]; [0; 1]]%Z.
Proof. repeat split. Qed.

(** * Further properties *)

(** ** The loss over real-valued entries *)

Open Scope R_scope.

Lemma torch_norm_nonneg (a : tensor real) : 0 <= torch_norm real a.
Proof. unfold torch_norm. cbn. apply sqrt_pos. Qed.

Lemma round_loss_exact (mask c input_d o : tensor real) :
  torch_mul real mask o = torch_mul real mask c ->
  round_loss real mask c input_d o = 0.
Proof.
  intros H. unfold round_loss.
  rewrite H, norm_sub_self. cbn. unfold Rdiv. apply Rmult_0_l.
Qed.

Lemma fold_right_Rplus_zeros (l : list R) :
  Forall (fun v => v = 0) l -> fold_right Rplus 0 l = 0.
Proof.
  induction 1 as [|v l Hv Hl IH]; cbn; [reflexivity|].
  rewrite IH, Hv. lra.
Qed.

Lemma fold_right_Rplus_nonneg (l : list R) :
  Forall (fun v => 0 <= v) l -> 0 <= fold_right Rplus 0 l.
Proof.
  induction 1 as [|v l Hv Hl IH]; cbn; lra.
Qed.

(** X1.  When every round's output agrees with the corrected input on the
    mask and the denominator [norm(mask * input)] is not zero, the loss is
    exactly 0. *)
Theorem loss_zero_on_exact_rounds
    (o : tensor real) (os : list (tensor real)) (input_d b : tensor real)
    (flag : bool) :
  let c := torch_sub real input_d b in
  let mask := val_mask real flag c in
  Forall (fun out => torch_mul real mask out = torch_mul real mask c)
         (o :: os) ->
  torch_norm real (torch_mul real mask input_d) <> 0 ->
  loss real (o :: os) input_d flag b = Ok 0.
Proof.
  intros c mask H _.
  rewrite loss_nonempty. fold c. fold mask.
  rewrite sum_from_real.
  inversion H as [|? ? Ho Hos]; subst.
  rewrite (round_loss_exact _ _ _ _ Ho).
  rewrite fold_right_Rplus_zeros.
  - f_equal. lra.
  - apply Forall_map.
    eapply Forall_impl; [|exact Hos].
    intros out Hout. apply round_loss_exact. exact Hout.
Qed.

(** Equal lists of lists of reals, entry by entry. *)
Ltac entries :=
  repeat match goal with
         | |- cons _ _ = cons _ _ => apply f_equal2
         | |- nil = nil => reflexivity
         | |- @eq R _ _ => lra
         end.

Lemma loss_zero_on_exact_rounds_witness :
  loss real [[[5; 0]]; [[5; 7]]] [[5; 0]] true [[0; 0]] = Ok 0.
Proof.
  assert (H5 : sign real (5 - 0) = 1) by (apply sign_pos; lra).
  assert (H0 : sign real (0 - 0) = 0)
    by (replace (0 - 0) with 0 by lra; apply sign_zero).
  apply (loss_zero_on_exact_rounds [[5; 0]] [[[5; 7]]] [[5; 0]] [[0; 0]] true).
  - apply Forall_cons; [|apply Forall_cons; [|apply Forall_nil]];
      cbn -[sign]; rewrite H5, H0; entries.
  - cbn -[sign]. rewrite H5, H0.
    apply Rgt_not_eq, sqrt_lt_R0. lra.
Defined.

(** X2.  With a denominator that is not zero, the loss of a non-empty
    sequence of round outputs is a value, and it is not negative. *)
Theorem loss_nonnegative
    (o : tensor real) (os : list (tensor real)) (input_d b : tensor real)
    (flag : bool) :
  torch_norm real
    (torch_mul real (val_mask real flag (torch_sub real input_d b)) input_d)
  <> 0 ->
  exists v, loss real (o :: os) input_d flag b = Ok v /\ 0 <= v.
Proof.
  intros Hd.
  eexists. split; [apply loss_nonempty|].
  rewrite sum_from_real.
  assert (Hterm : forall out,
             0 <= round_loss real
                    (val_mask real flag (torch_sub real input_d b))
                    (torch_sub real input_d b) input_d out).
  { intros out. unfold round_loss. cbn [d_div real].
    apply Rmult_le_pos; [apply torch_norm_nonneg|].
    apply Rlt_le, Rinv_0_lt_compat.
    pose proof (torch_norm_nonneg
                  (torch_mul real
                     (val_mask real flag (torch_sub real input_d b))
                     input_d)).
    lra. }
  apply Rplus_le_le_0_compat; [apply Hterm|].
  apply fold_right_Rplus_nonneg, Forall_map, Forall_forall.
  intros out _. apply Hterm.
Qed.

Lemma loss_nonnegative_witness :
  exists v, loss real [[[2]]] [[1]] true [[0]] = Ok v /\ 0 <= v.
Proof.
  apply loss_nonnegative.
  cbn -[sign]. rewrite (sign_pos (1 - 0)) by lra.
  apply Rgt_not_eq, sqrt_lt_R0. lra.
Defined.

Lemma sum_squares_same_square (l l' : list R) :
  Forall2 same_square l l' -> sum_squares real l = sum_squares real l'.
Proof.
  unfold sum_squares. cbn [d_zero d_add d_mul real].
  generalize 0 as acc.
  intros acc H. revert acc.
  induction H as [|u v l l' Huv Hl IH]; intros acc; cbn [fold_left];
    [reflexivity|].
  rewrite Huv. apply IH.
Qed.

Lemma sign_square (v : R) :
  sign real v * sign real v
  = (if Req_dec_T v 0 then 0 else 1) * (if Req_dec_T v 0 then 0 else 1).
Proof.
  destruct (Req_dec_T v 0) as [->|Hne].
  - rewrite sign_zero. reflexivity.
  - destruct (Rtotal_order 0 v) as [Hlt|[Heq|Hgt]].
    + rewrite (sign_pos v Hlt). reflexivity.
    + congruence.
    + rewrite (sign_neg v Hgt). lra.
Qed.

Lemma masked_row_same_square (f g : R -> R) (c o u : list R) :
  (forall v, f v * f v = g v * g v) ->
  Forall2 same_square
    (zip_with Rminus (zip_with Rmult (map f c) o) (zip_with Rmult (map f c) u))
    (zip_with Rminus (zip_with Rmult (map g c) o) (zip_with Rmult (map g c) u)).
Proof.
  intros Hfg. revert o u.
  induction c as [|v c IH]; intros [|a o] [|b u]; cbn; constructor.
  - unfold same_square.
    replace ((f v * a - f v * b) * (f v * a - f v * b))
      with ((f v * f v) * ((a - b) * (a - b))) by ring.
    replace ((g v * a - g v * b) * (g v * a - g v * b))
      with ((g v * g v) * ((a - b) * (a - b))) by ring.
    rewrite Hfg. reflexivity.
  - apply IH.
Qed.

Lemma masked_diff_same_square (f g : R -> R) (c o u : tensor real) :
  (forall v, f v * f v = g v * g v) ->
  Forall2 same_square
    (concat (torch_sub real (torch_mul real (pointwise real f c) o)
                            (torch_mul real (pointwise real f c) u)))
    (concat (torch_sub real (torch_mul real (pointwise real g c) o)
                            (torch_mul real (pointwise real g c) u))).
Proof.
  intros Hfg.
  unfold torch_sub, torch_mul, pointwise2, pointwise. cbn [d_sub d_mul real].
  revert o u.
  induction c as [|row c IH]; intros [|ro o] [|ru u]; cbn; try constructor.
  apply Forall2_app; [apply masked_row_same_square; exact Hfg | apply IH].
Qed.

Lemma masked_same_square (f g : R -> R) (c a : tensor real) :
  (forall v, f v * f v = g v * g v) ->
  Forall2 same_square
    (concat (torch_mul real (pointwise real f c) a))
    (concat (torch_mul real (pointwise real g c) a)).
Proof.
  intros Hfg.
  unfold torch_mul, pointwise2, pointwise. cbn [d_mul real].
  revert a.
  induction c as [|row c IH]; intros [|ra a]; cbn; try constructor.
  apply Forall2_app; [|apply IH].
  clear IH. revert ra.
  induction row as [|v row IHr]; intros [|x ra]; cbn; constructor.
  - unfold same_square.
    replace (f v * x * (f v * x)) with ((f v * f v) * (x * x)) by ring.
    replace (g v * x * (g v * x)) with ((g v * g v) * (x * x)) by ring.
    rewrite Hfg. reflexivity.
  - apply IHr.
Qed.

Lemma round_loss_nonzero_mask (c input_d o : tensor real) :
  round_loss real (val_mask real true c) c input_d o
  = round_loss real (nonzero_mask c) c input_d o.
Proof.
  unfold round_loss, torch_norm, val_mask, torch_sign, nonzero_mask.
  rewrite (sum_squares_same_square _ _
             (masked_diff_same_square _ _ c o c sign_square)).
  rewrite (sum_squares_same_square _ _
             (masked_same_square _ _ c input_d sign_square)).
  reflexivity.
Qed.

(** X3.  With masking enabled the loss is the loss under the 0/1 mask of
    the entries whose corrected input is not zero: the entries where the
    mask is -1 (negative corrected input) count exactly like those where it
    is 1. *)
Theorem loss_selects_nonzero_corrected_entries
    (o : tensor real) (os : list (tensor real)) (input_d b : tensor real) :
  let c := torch_sub real input_d b in
  loss real (o :: os) input_d true b
  = Ok (fold_right Rplus 0
          (map (round_loss real (nonzero_mask c) c input_d) (o :: os))).
Proof.
  intros c.
  rewrite loss_nonempty. fold c.
  rewrite sum_from_real. cbn [map fold_right].
  rewrite round_loss_nonzero_mask.
  rewrite (map_ext _ _ (fun out => round_loss_nonzero_mask c input_d out)).
  reflexivity.
Qed.

Lemma masked_row_agree (row ro ro' : list R) :
  length ro = length ro' ->
  (forall k v, nth_error row k = Some v -> v <> 0 ->
               nth_error ro k = nth_error ro' k) ->
  zip_with Rmult (map (sign real) row) ro
  = zip_with Rmult (map (sign real) row) ro'.
Proof.
  revert ro ro'.
  induction row as [|v row IH]; intros [|a ro] [|a' ro'] Hlen H;
    try reflexivity; try discriminate.
  cbn [map zip_with]. f_equal.
  - destruct (Req_dec_T v 0) as [->|Hne].
    + rewrite sign_zero. lra.
    + specialize (H 0%nat v eq_refl Hne). cbn in H. congruence.
  - apply IH.
    + injection Hlen as Hlen. exact Hlen.
    + intros k w Hk Hw. exact (H (S k) w Hk Hw).
Qed.

Lemma masked_agree (c o o' : tensor real) :
  agree_where_nonzero c o o' ->
  torch_mul real (val_mask real true c) o
  = torch_mul real (val_mask real true c) o'.
Proof.
  intros [Hshape H].
  unfold torch_mul, val_mask, torch_sign, pointwise2, pointwise.
  cbn [d_mul real].
  revert c H.
  induction Hshape as [|ro ro' o o' Hlen Hshape IH]; intros [|row c] H;
    try reflexivity.
  cbn [map zip_with]. f_equal.
  - apply masked_row_agree; [exact Hlen|].
    intros k v Hk Hv. exact (H 0%nat k v Hk Hv).
  - apply IH. intros r k v Hr Hv. exact (H (S r) k v Hr Hv).
Qed.

(** X4.  With masking enabled, the loss does not read the round outputs at
    the entries where the corrected input is exactly zero: two sequences of
    round outputs that agree at every other entry have the same loss. *)
Theorem loss_ignores_zero_corrected_entries
    (outs outs' : list (tensor real)) (input_d b : tensor real) :
  Forall2 (agree_where_nonzero (torch_sub real input_d b)) outs outs' ->
  loss real outs input_d true b = loss real outs' input_d true b.
Proof.
  intros H.
  destruct H as [|o o' os os' Ho Hos]; [reflexivity|].
  rewrite !loss_nonempty.
  unfold round_loss at 1 3.
  rewrite (masked_agree _ _ _ Ho).
  do 2 f_equal.
  induction Hos as [|p p' ps ps' Hp Hps IH]; [reflexivity|].
  cbn [map]. f_equal; [|exact IH].
  unfold round_loss. rewrite (masked_agree _ _ _ Hp). reflexivity.
Qed.

Lemma loss_ignores_zero_corrected_entries_witness :
  loss real [[[5; 7]]] [[5; 0]] true [[0; 0]]
  = loss real [[[5; 9]]] [[5; 0]] true [[0; 0]].
Proof.
  apply loss_ignores_zero_corrected_entries.
  constructor; [|constructor].
  split.
  - repeat constructor.
  - intros [|[|r]] [|[|[|k]]] v Hv Hne; cbn in *; try discriminate;
      try reflexivity.
    injection Hv as Hv. exfalso. apply Hne. lra.
Defined.

Lemma ones_mask_identity (c a : tensor real) :
  same_shape c a ->
  torch_mul real (pointwise real (fun _ => 1) c) a = a.
Proof.
  unfold torch_mul, pointwise2, pointwise. cbn [d_mul real].
  induction 1 as [|row ra c a Hlen Hshape IH]; [reflexivity|].
  cbn [map zip_with]. f_equal; [|exact IH].
  clear IH Hshape c a.
  revert ra Hlen.
  induction row as [|v row IHr]; intros [|x ra] Hlen; try discriminate;
    [reflexivity|].
  cbn [map zip_with]. f_equal; [apply Rmult_1_l|].
  apply IHr. injection Hlen as Hlen. exact Hlen.
Qed.

Lemma val_mask_disabled_ones (c : tensor real) :
  Forall (Forall (fun v => -1 < v)) c ->
  val_mask real false c = pointwise real (fun _ => 1) c.
Proof.
  intros H.
  unfold val_mask, torch_sign, add_scalar, pointwise.
  rewrite map_map.
  apply map_ext_Forall.
  eapply Forall_impl; [|exact H].
  intros row Hrow. rewrite map_map.
  apply map_ext_Forall.
  eapply Forall_impl; [|exact Hrow].
  intros v Hv. apply sign_pos. cbn. lra.
Qed.

Lemma same_shape_refl (D : dtype) (a : tensor D) : same_shape a a.
Proof.
  unfold same_shape.
  induction a as [|row a IH]; constructor; [reflexivity | exact IH].
Qed.

(** X5.  With masking disabled and every corrected entry greater than -1,
    the mask is 1 everywhere, and for outputs and input of the shape of the
    corrected input the loss is the unmasked sum of
    [norm(output_i - corrected) / norm(input)]. *)
Theorem loss_unmasked
    (o : tensor real) (os : list (tensor real)) (input_d b : tensor real) :
  let c := torch_sub real input_d b in
  Forall (Forall (fun v => -1 < v)) c ->
  same_shape c input_d ->
  Forall (same_shape c) (o :: os) ->
  val_mask real false c = pointwise real (fun _ => 1) c
  /\ loss real (o :: os) input_d false b
     = Ok (fold_right Rplus 0
             (map (fun out => torch_norm real (torch_sub real out c)
                              / torch_norm real input_d)
                  (o :: os))).
Proof.
  intros c Hc Hx Hos.
  split; [apply val_mask_disabled_ones; exact Hc|].
  rewrite loss_nonempty. fold c.
  rewrite sum_from_real.
  rewrite (val_mask_disabled_ones c Hc).
  assert (Hterm : forall out, same_shape c out ->
            round_loss real (pointwise real (fun _ => 1) c) c input_d out
            = torch_norm real (torch_sub real out c)
              / torch_norm real input_d).
  { intros out Hout. unfold round_loss.
    rewrite !ones_mask_identity
      by (assumption || apply same_shape_refl).
    reflexivity. }
  inversion Hos as [|? ? Ho Hos']; subst.
  cbn [map fold_right].
  rewrite (Hterm o Ho).
  do 2 f_equal.
  clear Hos.
  induction Hos' as [|p ps Hp Hps IH]; [reflexivity|].
  cbn [map fold_right]. rewrite (Hterm p Hp).
  f_equal. exact IH.
Qed.

Lemma loss_unmasked_witness :
  loss real [[[2; 3]]] [[1; 0]] false [[0; 0]]
  = Ok (fold_right Rplus 0
          (map (fun out =>
                  torch_norm real
                    (torch_sub real out (torch_sub real [[1; 0]] [[0; 0]]))
                  / torch_norm real [[1; 0]])
               [[[2; 3]]])).
Proof.
  apply (loss_unmasked [[2; 3]] [] [[1; 0]] [[0; 0]]).
  - apply Forall_cons; [|apply Forall_nil].
    apply Forall_cons; [cbn; lra|].
    apply Forall_cons; [cbn; lra | apply Forall_nil].
  - apply Forall2_cons; [reflexivity | apply Forall2_nil].
  - apply Forall_cons; [|apply Forall_nil].
    apply Forall2_cons; [reflexivity | apply Forall2_nil].
Defined.

(** ** A freshly constructed model applies no batch correction *)

Lemma map_constant {A B : Type} (b : B) (l : list A) :
  map (fun _ => b) l = repeat b (length l).
Proof. induction l as [|a l IH]; cbn; [|rewrite IH]; reflexivity. Qed.

Lemma dot_zero_weights_real (row : list R) (k : nat) :
  dot real row (repeat 0 k) = 0.
Proof.
  unfold dot. cbn [d_add d_mul d_zero real].
  generalize 0 at 2 3 as acc.
  revert k.
  induction row as [|v row IH]; intros [|k] acc; cbn; try reflexivity.
  rewrite IH. lra.
Qed.

Lemma linear_zero_weights_real (d k : nat) (a : tensor real) :
  F_linear real (zeros real d k) a = zeros real (length a) d.
Proof.
  unfold F_linear, zeros.
  rewrite <- map_constant.
  apply map_ext. intros row.
  rewrite map_repeat, dot_zero_weights_real. reflexivity.
Qed.

Close Scope R_scope.

Section ZeroWeights.
Variables prec emax : Z.

Lemma dot_zero_weights_ieee (row : list spec_float) (k : nat) :
  Forall (fun v => is_finite v = true) row ->
  dot (ieee prec emax) row (repeat (S754_zero false) k) = S754_zero false.
Proof.
  unfold dot. cbn [d_add d_mul d_zero ieee].
  intros H. revert k.
  induction H as [|v row Hv Hrow IH]; intros [|k];
    cbn [zip_with repeat fold_left]; try reflexivity.
  replace (SFadd prec emax (S754_zero false)
             (SFmul prec emax v (S754_zero false)))
    with (S754_zero false)
    by (destruct v as [[|] | | | [|] m e]; try discriminate; reflexivity).
  apply IH.
Qed.

Lemma linear_zero_weights_ieee (d k : nat) (a : tensor (ieee prec emax)) :
  Forall (Forall (fun v => is_finite v = true)) a ->
  F_linear (ieee prec emax) (zeros (ieee prec emax) d k) a
  = zeros (ieee prec emax) (length a) d.
Proof.
  intros H.
  unfold F_linear, zeros.
  rewrite <- map_constant.
  apply map_ext_Forall.
  eapply Forall_impl; [|exact H].
  intros row Hrow.
  rewrite map_repeat. cbn [d_zero ieee].
  rewrite dot_zero_weights_ieee by exact Hrow. reflexivity.
Qed.
End ZeroWeights.

(** X6.  On a model as [__init__] leaves it (the batch-effect weights all
    zero), on an input and an indicator of the shapes the model is built
    for, [forward] returns the zero batch correction, one zero row of
    [input_dim] entries per row of the batch indicator: over the reals for
    every such indicator, over every IEEE format for every such indicator
    without infinities and NaNs. *)
Theorem fresh_model_zero_correction :
  (forall (Gen : Type)
          (Sequential_init :
             nat -> Gen -> (tensor real -> tensor real) * Gen)
          (input_d : tensor real) (layers : AutoEncoder real)
          (exp_batch_input0 : tensor real) (rounds : Z)
          (g : Gen) (id : nat) (tr : list event)
          (inp exp_batch_input : tensor real),
     shapes_fit (scScope_init real input_d layers exp_batch_input0 rounds)
                inp exp_batch_input ->
     layers_keep_shape Sequential_init
       (scScope_init real input_d layers exp_batch_input0 rounds) inp ->
     exists outs lats,
       fst (forward Sequential_init inp exp_batch_input
              {| self := scScope_init real input_d layers exp_batch_input0
                                      rounds;
                 rng := g; next_id := id; trace := tr |})
       = Ok (outs, lats,
             zeros real (length exp_batch_input) (shape1 real input_d)))
  /\ (forall (prec emax : Z) (Gen : Type)
             (Sequential_init :
                nat -> Gen ->
                (tensor (ieee prec emax) -> tensor (ieee prec emax)) * Gen)
             (input_d : tensor (ieee prec emax))
             (layers : AutoEncoder (ieee prec emax))
             (exp_batch_input0 : tensor (ieee prec emax)) (rounds : Z)
             (g : Gen) (id : nat) (tr : list event)
             (inp exp_batch_input : tensor (ieee prec emax)),
        shapes_fit
          (scScope_init (ieee prec emax) input_d layers exp_batch_input0
                        rounds)
          inp exp_batch_input ->
        layers_keep_shape Sequential_init
          (scScope_init (ieee prec emax) input_d layers exp_batch_input0
                        rounds)
          inp ->
        Forall (Forall (fun v => is_finite v = true)) exp_batch_input ->
        exists outs lats,
          fst (forward Sequential_init inp exp_batch_input
                 {| self := scScope_init (ieee prec emax) input_d layers
                                         exp_batch_input0 rounds;
                    rng := g; next_id := id; trace := tr |})
          = Ok (outs, lats,
                zeros (ieee prec emax) (length exp_batch_input)
                      (shape1 (ieee prec emax) input_d))).
Proof.
  split.
  - intros. eexists _, _.
    rewrite forward_spec. cbn [fst self scScope_init batch_effect_layer].
    rewrite linear_zero_weights_real. reflexivity.
  - intros prec emax Gen SI input_d layers e0 rounds g id tr inp e _ _ Hfin.
    eexists _, _.
    rewrite forward_spec. cbn [fst self scScope_init batch_effect_layer].
    rewrite linear_zero_weights_ieee by exact Hfin. reflexivity.
Qed.

Lemma fresh_model_zero_correction_witness :
  exists outs lats,
    fst (forward toy_init toy_input toy_batch (toy_world 2))
    = Ok (outs, lats, zeros float32 1 2).
Proof.
  apply (proj2 fresh_model_zero_correction 24%Z 128%Z nat toy_init toy_input
           identity_layers toy_batch 2%Z 0%nat 0%nat [] toy_input toy_batch).
  - apply (toy_shapes_fit 2).
  - apply toy_layers_keep_shape. reflexivity.
  - repeat constructor.
Defined.

(** ** [forward]: what it does not read, and the degenerate round counts *)

Section ForwardMore.
Variable D : dtype.
Variable Gen : Type.
Variable Sequential_init : nat -> Gen -> (tensor D -> tensor D) * Gen.

(** X7.  What [forward] returns depends on the model's [t], [input_dim],
    inherited layers and batch-effect weights and on the random generator,
    and on nothing else of the state: not on the [input],
    [batch_effect_removal_layer] or [imputation_model] an earlier pass left
    on the instance. *)
Theorem forward_ignores_stored_attributes
    (inp exp_batch_input : tensor D) (w1 w2 : world D Gen) :
  t (self w1) = t (self w2) ->
  input_dim (self w1) = input_dim (self w2) ->
  base (self w1) = base (self w2) ->
  batch_effect_layer (self w1) = batch_effect_layer (self w2) ->
  rng w1 = rng w2 ->
  fst (forward Sequential_init inp exp_batch_input w1)
  = fst (forward Sequential_init inp exp_batch_input w2).
Proof.
  intros Ht Hd Hb Hw Hg.
  rewrite !forward_spec. cbn [fst].
  destruct (after_rounds_lists Sequential_init inp exp_batch_input w1)
    as [Ho1 Hl1].
  destruct (after_rounds_lists Sequential_init inp exp_batch_input w2)
    as [Ho2 Hl2].
  rewrite Ho1, Hl1, Ho2, Hl2, Ht, Hd, Hb, Hw, Hg.
  reflexivity.
Qed.

(** X8.  With [t <= 0] the loop body never runs: on an input and an
    indicator of the shapes the model is built for, [forward] returns no
    output and no latent, only the batch correction; it stores the input
    and the correction on the instance, constructs nothing and draws no
    random number. *)
Theorem forward_without_rounds
    (inp exp_batch_input : tensor D) (w : world D Gen) :
  (t (self w) <= 0)%Z ->
  shapes_fit (self w) inp exp_batch_input ->
  forward Sequential_init inp exp_batch_input w
  = (Ok ([], [], F_linear D (batch_effect_layer (self w)) exp_batch_input),
     before_rounds inp exp_batch_input w)
  /\ imputation_model (self (before_rounds inp exp_batch_input w))
     = imputation_model (self w)
  /\ rng (before_rounds inp exp_batch_input w) = rng w
  /\ input (self (before_rounds inp exp_batch_input w)) = Some inp.
Proof.
  intros Ht _.
  rewrite forward_spec.
  unfold after_rounds.
  replace (Z.to_nat (t (self w))) with 0%nat by lia.
  repeat split.
Qed.
End ForwardMore.

Lemma forward_ignores_stored_attributes_witness :
  fst (forward toy_init toy_input toy_batch (toy_world 2))
  = fst (forward toy_init toy_input toy_batch
           {| self := self after_first_call; rng := 0%nat;
              next_id := 5%nat; trace := [] |}).
Proof.
  apply forward_ignores_stored_attributes; reflexivity.
Defined.

Lemma forward_without_rounds_witness :
  forward toy_init toy_input toy_batch (toy_world 0)
  = (Ok ([], [],
         F_linear float32 (batch_effect_layer (self (toy_world 0)))
                  toy_batch),
     before_rounds toy_input toy_batch (toy_world 0)).
Proof.
  apply (forward_without_rounds float32 nat toy_init toy_input toy_batch
           (toy_world 0)).
  - cbn. lia.
  - apply toy_shapes_fit.
Defined.

(** ** Rounds on non-negative and on fully observed input *)

Open Scope R_scope.

Lemma relu_nonneg (v : R) : 0 <= v -> relu real v = v.
Proof.
  intros H. unfold relu. cbn [d_ltb d_zero real].
  rewrite Rltb_false by exact H. reflexivity.
Qed.

Lemma F_relu_nonneg (a : tensor real) :
  Forall (Forall (fun v => 0 <= v)) a -> F_relu real a = a.
Proof.
  intros H. unfold F_relu, pointwise.
  rewrite <- (map_id a) at 2.
  apply map_ext_Forall.
  eapply Forall_impl; [|exact H].
  intros row Hrow.
  rewrite <- (map_id row) at 2.
  apply map_ext_Forall.
  eapply Forall_impl; [|exact Hrow].
  intros v Hv. apply relu_nonneg. exact Hv.
Qed.

Lemma sub_zero_row (row : list R) :
  zip_with Rminus row (repeat 0 (length row)) = row.
Proof.
  induction row as [|v row IH]; cbn; [reflexivity|].
  rewrite IH. f_equal. lra.
Qed.

Lemma sub_zeros (a : tensor real) (d : nat) :
  Forall (fun row => length row = d) a ->
  torch_sub real a (zeros real (length a) d) = a.
Proof.
  unfold torch_sub, pointwise2, zeros. cbn [d_sub d_zero real].
  induction 1 as [|row a Hrow Ha IH]; [reflexivity|].
  cbn [length repeat]. cbn [zip_with].
  f_equal; [|exact IH].
  rewrite <- Hrow. apply sub_zero_row.
Qed.

(** X9.  The first round of a model as [__init__] leaves it, on an input
    without negative entries and an indicator, both of the shapes the model
    is built for: the batch correction is zero and the rectifier changes
    nothing, so the first output is the inherited layers (encoder, latent
    layer, decoder, output projection) applied to the raw input. *)
Theorem fresh_model_first_round
    (Gen : Type)
    (Sequential_init : nat -> Gen -> (tensor real -> tensor real) * Gen)
    (input_d : tensor real) (layers : AutoEncoder real)
    (exp_batch_input0 : tensor real) (rounds : Z)
    (g : Gen) (id : nat) (tr : list event)
    (inp exp_batch_input : tensor real) :
  (1 <= rounds)%Z ->
  shapes_fit (scScope_init real input_d layers exp_batch_input0 rounds)
             inp exp_batch_input ->
  layers_keep_shape Sequential_init
    (scScope_init real input_d layers exp_batch_input0 rounds) inp ->
  Forall (Forall (fun v => 0 <= v)) inp ->
  exists rest lats b,
    fst (forward Sequential_init inp exp_batch_input
           {| self := scScope_init real input_d layers exp_batch_input0
                                   rounds;
              rng := g; next_id := id; trace := tr |})
    = Ok (round_output layers inp :: rest, lats, b).
Proof.
  intros Hr (_ & _ & _ & Hlen & _ & Hrows) _ Hpos.
  cbn [scScope_init batch_effect_layer] in Hrows.
  unfold zeros in Hrows. rewrite repeat_length in Hrows.
  set (w := {| self := _; rng := g; next_id := id; trace := tr |}).
  destruct (after_rounds_lists Sequential_init inp exp_batch_input w)
    as [Ho _].
  rewrite forward_spec. cbn [fst]. rewrite Ho.
  subst w. cbn [self scScope_init t base batch_effect_layer].
  destruct (Z.to_nat rounds) as [|k] eqn:E; [lia|].
  unfold rounds_outputs, residual0.
  rewrite linear_zero_weights_real, Hlen, sub_zeros by exact Hrows.
  rewrite F_relu_nonneg by exact Hpos.
  eexists _, _, _. reflexivity.
Qed.

Lemma merge_row_observed (row imp : list R) :
  Forall (fun v => 0 < v) row ->
  length row = length imp ->
  zip_with Rplus
    (zip_with Rmult
       (map (fun v => 1 - v) (map (sign real) row)) imp) row
  = row.
Proof.
  intros H. revert imp.
  induction H as [|v row Hv Hrow IH]; intros [|a imp] Hlen;
    try discriminate; [reflexivity|].
  cbn [map zip_with]. f_equal.
  - rewrite (sign_pos v Hv). lra.
  - apply IH. injection Hlen as Hlen. exact Hlen.
Qed.

Lemma merge_fully_observed (inp imputed : tensor real) :
  Forall (Forall (fun v => 0 < v)) inp ->
  same_shape inp imputed ->
  torch_add real (impute_merge real inp imputed) inp = inp.
Proof.
  intros H Hshape.
  unfold torch_add, impute_merge, torch_mul, rsub_scalar, torch_sign,
    pointwise2, pointwise.
  cbn [d_add d_mul d_sub d_one real].
  revert H.
  induction Hshape as [|row ri inp imputed Hlen Hshape IH]; intros H;
    [reflexivity|].
  inversion H as [|? ? Hrow Hrest]; subst.
  cbn [map zip_with]. f_equal.
  - apply merge_row_observed; assumption.
  - apply IH. exact Hrest.
Qed.

Section FullyObserved.
Variable layers : AutoEncoder real.
Variable f : tensor real -> tensor real.
Variables inp b : tensor real.
Hypothesis observed : Forall (Forall (fun v => 0 < v)) inp.
Hypothesis f_shape : forall o, same_shape inp (f o).

Lemma residual_fully_observed (o : tensor real) :
  residual f inp b o = residual0 inp b.
Proof.
  unfold residual, residual0.
  rewrite merge_fully_observed; [reflexivity | exact observed | apply f_shape].
Qed.

Lemma later_outputs_fully_observed (n : nat) (o : tensor real) :
  later_outputs layers f inp b n o
  = repeat (round_output layers (residual0 inp b)) n.
Proof.
  revert o.
  induction n as [|n IH]; intros o; cbn [later_outputs repeat];
    [reflexivity|].
  rewrite residual_fully_observed, IH. reflexivity.
Qed.

Lemma later_latents_fully_observed (n : nat) (o : tensor real) :
  later_latents layers f inp b n o
  = repeat (round_latent layers (residual0 inp b)) n.
Proof.
  revert o.
  induction n as [|n IH]; intros o; cbn [later_latents repeat];
    [reflexivity|].
  rewrite residual_fully_observed, IH. reflexivity.
Qed.
End FullyObserved.

(** X10.  On an input whose entries are all positive (nothing to impute)
    and an indicator, both of the shapes the model is built for, with an
    imputation network that returns tensors of the input's shape, the merge
    rule discards every imputed value: all [t] rounds see the same residual
    input, and [forward] returns [t] copies of the first round's output and
    latent. *)
Theorem fully_observed_rounds_repeat
    (Gen : Type)
    (Sequential_init : nat -> Gen -> (tensor real -> tensor real) * Gen)
    (inp exp_batch_input : tensor real) (w : world real Gen) :
  let b := F_linear real (batch_effect_layer (self w)) exp_batch_input in
  let f := fst (Sequential_init (input_dim (self w)) (rng w)) in
  shapes_fit (self w) inp exp_batch_input ->
  layers_keep_shape Sequential_init (self w) inp ->
  Forall (Forall (fun v => 0 < v)) inp ->
  (forall o, same_shape inp (f o)) ->
  fst (forward Sequential_init inp exp_batch_input w)
  = Ok (repeat (round_output (base (self w)) (residual0 inp b))
               (Z.to_nat (t (self w))),
        repeat (round_latent (base (self w)) (residual0 inp b))
               (Z.to_nat (t (self w))),
        b).
Proof.
  intros b f _ _ Hobs Hshape.
  destruct (after_rounds_lists Sequential_init inp exp_batch_input w)
    as [Ho Hl].
  rewrite forward_spec. cbn [fst]. rewrite Ho, Hl.
  fold b. fold f.
  unfold rounds_outputs, rounds_latents.
  destruct (Z.to_nat (t (self w))) as [|k]; [reflexivity|].
  rewrite later_outputs_fully_observed, later_latents_fully_observed
    by assumption.
  reflexivity.
Qed.

Close Scope R_scope.

Lemma fresh_model_first_round_witness :
  exists rest lats b,
    fst (forward constant_init [[5%R; 0%R]] [[1%R]] (real_world 2))
    = Ok (round_output real_identity_layers [[5%R; 0%R]] :: rest, lats, b).
Proof.
  apply (fresh_model_first_round unit constant_init real_input
           real_identity_layers real_batch 2 tt 0%nat []
           [[5%R; 0%R]] [[1%R]]).
  - lia.
  - apply (real_shapes_fit 2).
  - apply real_layers_keep_shape; [reflexivity|].
    apply same_shape_one_cell_two_genes.
  - apply Forall_cons; [|apply Forall_nil].
    apply Forall_cons; [lra|].
    apply Forall_cons; [lra | apply Forall_nil].
Defined.

Lemma fully_observed_rounds_repeat_witness :
  fst (forward constant_init real_input real_batch (real_world 3))
  = Ok (repeat (round_output real_identity_layers
                  (residual0 real_input
                     (F_linear real
                        (batch_effect_layer (self (real_world 3)))
                        real_batch)))
               3,
        repeat (round_latent real_identity_layers
                  (residual0 real_input
                     (F_linear real
                        (batch_effect_layer (self (real_world 3)))
                        real_batch)))
               3,
        F_linear real (batch_effect_layer (self (real_world 3))) real_batch).
Proof.
  apply (fully_observed_rounds_repeat unit constant_init
           real_input real_batch (real_world 3)).
  - apply (real_shapes_fit 3).
  - apply real_layers_keep_shape; [reflexivity|].
    apply same_shape_one_cell_two_genes.
  - apply Forall_cons; [|apply Forall_nil].
    apply Forall_cons; [lra|].
    apply Forall_cons; [lra | apply Forall_nil].
  - intros o. apply Forall2_cons; [reflexivity | apply Forall2_nil].
Defined.

(** ** The batch indicator: labels 1..k, labels out of range *)

Lemma every_label_occurs (labels : list Z) (k : nat) :
  length (nodup Z.eq_dec labels) = k ->
  (forall label, In label labels -> (1 <= label <= Z.of_nat k)%Z) ->
  forall j, (j < k)%nat -> In (Z.of_nat j + 1)%Z labels.
Proof.
  intros Hlen Hrange j Hj.
  apply (nodup_In Z.eq_dec).
  apply (NoDup_length_incl (l := nodup Z.eq_dec labels)
           (l' := map (fun i => Z.of_nat i + 1)%Z (seq 0 k))).
  - apply NoDup_nodup.
  - rewrite length_map, length_seq, Hlen. lia.
  - intros label Hin.
    apply nodup_In in Hin. apply Hrange in Hin.
    apply in_map_iff. exists (Z.to_nat (label - 1)).
    split; [lia|]. apply in_seq. lia.
  - apply in_map_iff. exists j. split; [reflexivity|].
    apply in_seq. lia.
Qed.

Lemma indicator_row_all_ones (labels : list Z) (k : nat) :
  (forall j, (j < k)%nat -> In (Z.of_nat j + 1)%Z labels) ->
  indicator_row k (map (fun label => Z.to_nat (label - 1)) labels)
  = repeat 1%Z k.
Proof.
  intros H.
  apply nth_error_ext. intros j.
  unfold indicator_row. rewrite nth_error_set_columns.
  destruct (Nat.lt_ge_cases j k) as [Hj|Hj].
  - rewrite !nth_error_repeat by exact Hj. cbn [option_map].
    replace (existsb (Nat.eqb j)
               (map (fun label => Z.to_nat (label - 1)) labels))
      with true; [reflexivity|].
    symmetry. apply existsb_exists.
    exists j. split; [|apply Nat.eqb_refl].
    apply in_map_iff. exists (Z.of_nat j + 1)%Z.
    split; [lia | apply H; exact Hj].
  - replace (nth_error (repeat 0%Z k) j) with (@None Z)
      by (symmetry; apply nth_error_None; rewrite repeat_length; exact Hj).
    replace (nth_error (repeat 1%Z k) j) with (@None Z)
      by (symmetry; apply nth_error_None; rewrite repeat_length; exact Hj).
    reflexivity.
Qed.

(** X11.  With more than one batch and the labels in 1..k, as the column
    index [label - 1] assumes, every label 1..k occurs, every column is
    set, and the indicator is the all-ones matrix (cells x k): it is the
    same for every assignment of cells to batches.  In [predict], and in the
    trainer's setup for a dataset whose [num_batches] is the number of its
    distinct labels. *)
Theorem one_indexed_labels_give_all_ones :
  (forall batch_data : ndarray,
     (1 < length (np_unique batch_data))%nat ->
     (forall label, In label (concat batch_data) ->
        (1 <= label <= Z.of_nat (length (np_unique batch_data)))%Z) ->
     predict_one_hot_batches batch_data
     = Ok (repeat (repeat 1%Z (length (np_unique batch_data)))
                  (length batch_data)))
  /\ (forall gene_dataset : GeneExpressionDataset,
        num_batches gene_dataset
        = length (np_unique (batch_indices gene_dataset)) ->
        (1 < num_batches gene_dataset)%nat ->
        (forall label, In label (concat (batch_indices gene_dataset)) ->
           (1 <= label <= Z.of_nat (num_batches gene_dataset))%Z) ->
        trainer_one_hot_batches gene_dataset
        = Ok (repeat (repeat 1%Z (num_batches gene_dataset))
                     (nb_cells gene_dataset))).
Proof.
  split.
  - intros bd Hk Hrange.
    unfold predict_one_hot_batches.
    apply Nat.ltb_lt in Hk. rewrite Hk.
    rewrite assign_columns_zeros.
    unfold column_indices.
    rewrite (axis_indices_one_indexed _ _ Hrange).
    rewrite indicator_row_all_ones; [reflexivity|].
    apply every_label_occurs; [reflexivity | exact Hrange].
  - intros ds Hn Hk Hrange.
    unfold trainer_one_hot_batches.
    apply Nat.ltb_lt in Hk. rewrite Hk.
    rewrite assign_columns_zeros.
    unfold column_indices.
    rewrite (axis_indices_one_indexed _ _ Hrange).
    rewrite indicator_row_all_ones; [reflexivity|].
    apply every_label_occurs; [symmetry; exact Hn | exact Hrange].
Qed.

Lemma one_indexed_labels_give_all_ones_witness :
  predict_one_hot_batches [[2]; [1]; [3]; [1]]%Z
  = Ok [[1; 1; 1]; [1; 1; 1]; [1; 1; 1]; [1; 1; 1]]%Z.
Proof.
  apply (proj1 one_indexed_labels_give_all_ones [[2]; [1]; [3]; [1]]%Z).
  - cbn. lia.
  - cbn. intros label H. lia.
Defined.

Lemma axis_index_none (k : nat) (j : Z) :
  axis_index k j = None <-> ~ (- Z.of_nat k <= j < Z.of_nat k)%Z.
Proof.
  unfold axis_index.
  destruct (Z.leb_spec 0 j), (Z.ltb_spec j (Z.of_nat k)),
    (Z.leb_spec (- Z.of_nat k) j), (Z.ltb_spec j 0); cbn;
    split; intros Hx; try discriminate; try lia; try reflexivity.
Qed.

Lemma axis_indices_none (k : nat) (idx : list Z) :
  axis_indices k idx = None
  <-> exists j, In j idx /\ ~ (- Z.of_nat k <= j < Z.of_nat k)%Z.
Proof.
  induction idx as [|j idx IH]; cbn [axis_indices].
  - split; [discriminate | intros (j & [] & _)].
  - destruct (axis_index k j) as [c|] eqn:Ej.
    + destruct (axis_indices k idx) as [cs|].
      * split; [discriminate|].
        intros (j' & [<-|Hin] & Hbad).
        -- apply axis_index_none in Hbad. congruence.
        -- assert (E : Some cs = None)
             by (apply IH; exists j'; split; assumption).
           discriminate E.
      * split; [|reflexivity].
        intros _. destruct (proj1 IH eq_refl) as (j' & Hin & Hbad).
        exists j'. split; [right; exact Hin | exact Hbad].
    + split; [|reflexivity].
      intros _. exists j. split; [left; reflexivity|].
      apply axis_index_none. exact Ej.
Qed.

Lemma indicator_index_error (k n : nat) (batch : ndarray) :
  assign_columns k (np_zeros n k) (column_indices batch) 1%Z
  = Raise IndexError
  <-> exists label, In label (concat batch)
                    /\ ~ (1 - Z.of_nat k <= label <= Z.of_nat k)%Z.
Proof.
  rewrite assign_columns_zeros.
  destruct (axis_indices k (column_indices batch)) as [cols|] eqn:E.
  - split; [discriminate|].
    intros (label & Hin & Hbad).
    assert (Hnone : axis_indices k (column_indices batch) = None).
    { apply axis_indices_none. exists (label - 1)%Z. split.
      - unfold column_indices. apply in_map_iff. exists label. auto.
      - lia. }
    congruence.
  - split; [|reflexivity].
    intros _.
    destruct (proj1 (axis_indices_none k (column_indices batch)) E)
      as (j & Hin & Hbad).
    unfold column_indices in Hin. apply in_map_iff in Hin.
    destruct Hin as (label & <- & Hin).
    exists label. split; [exact Hin | lia].
Qed.

(** X12.  With more than one batch (k distinct labels) the indicator of
    [predict] is an IndexError exactly when some label lies outside
    [1 - k, k]: the labels 1..k are accepted, and so are 0 and the negative
    labels down to 1 - k, whose columns are counted from the end.  On such
    an error [predict] has not called the model: the model instance is as
    before. *)
Theorem predict_raises_IndexError_iff_label_out_of_range
    (batch_data : ndarray) :
  (1 < length (np_unique batch_data))%nat ->
  (predict_one_hot_batches batch_data = Raise IndexError
   <-> exists label,
         In label (concat batch_data)
         /\ ~ (1 - Z.of_nat (length (np_unique batch_data)) <= label
               <= Z.of_nat (length (np_unique batch_data)))%Z)
  /\ (forall (D : dtype) (Gen : Type)
             (Sequential_init : nat -> Gen -> (tensor D -> tensor D) * Gen)
             (input_d : tensor D) (w : world D Gen),
        (exists label,
            In label (concat batch_data)
            /\ ~ (1 - Z.of_nat (length (np_unique batch_data)) <= label
                  <= Z.of_nat (length (np_unique batch_data)))%Z) ->
        predict Sequential_init input_d batch_data w = (Raise IndexError, w)).
Proof.
  intros Hk.
  assert (E : predict_one_hot_batches batch_data
              = assign_columns (length (np_unique batch_data))
                  (np_zeros (length batch_data)
                            (length (np_unique batch_data)))
                  (column_indices batch_data) 1%Z).
  { unfold predict_one_hot_batches.
    apply Nat.ltb_lt in Hk. rewrite Hk. reflexivity. }
  split.
  - rewrite E. apply indicator_index_error.
  - intros D Gen SI input_d w Hbad.
    unfold predict, bind at 1, lift at 1.
    rewrite E.
    rewrite (proj2 (indicator_index_error _ _ _) Hbad).
    reflexivity.
Qed.

Lemma predict_raises_IndexError_iff_label_out_of_range_witness :
  predict toy_init toy_input [[1]; [3]]%Z (toy_world 2)
  = (Raise IndexError, toy_world 2).
Proof.
  apply (proj2 (predict_raises_IndexError_iff_label_out_of_range
                  [[1]; [3]]%Z ltac:(cbn; lia))).
  exists 3%Z. split; [cbn; auto | cbn; lia].
Defined.

(** ** The trainer's hooks *)

Lemma axis_index_some (k : nat) (j : Z) :
  (- Z.of_nat k <= j < Z.of_nat k)%Z ->
  exists c, axis_index k j = Some c /\ (c < k)%nat.
Proof.
  intros H. unfold axis_index.
  destruct (Z.leb_spec 0 j), (Z.ltb_spec j (Z.of_nat k)); cbn;
    try (eexists; split; [reflexivity | lia]); try lia.
  destruct (Z.leb_spec (- Z.of_nat k) j), (Z.ltb_spec j 0); cbn;
    try (eexists; split; [reflexivity | lia]); lia.
Qed.

Lemma index_rows_repeat (D : dtype) (row : list (scalar D)) (n : nat)
    (indices : list Z) :
  (forall j, In j indices -> (- Z.of_nat n <= j < Z.of_nat n)%Z) ->
  index_rows (repeat row n) indices = Ok (repeat row (length indices)).
Proof.
  induction indices as [|j indices IH]; intros H; [reflexivity|].
  cbn [index_rows length repeat].
  rewrite repeat_length.
  destruct (axis_index_some n j (H j (or_introl eq_refl)))
    as (c & -> & Hc).
  rewrite nth_error_repeat by exact Hc.
  rewrite IH by (intros j' Hj'; apply H; right; exact Hj').
  reflexivity.
Qed.

Lemma linear_repeat (D : dtype) (w : tensor D) (row : list (scalar D))
    (n : nat) :
  F_linear D w (repeat row n) = repeat (map (dot D row) w) n.
Proof. unfold F_linear. apply map_repeat. Qed.

Section TrainerFacts.
Variable D : dtype.
Variable Gen : Type.
Variable Sequential_init : nat -> Gen -> (tensor D -> tensor D) * Gen.
Variable backward_step : Adam -> scalar D -> world D Gen -> world D Gen.

Lemma model_output_spec (data : tensor D) (indices : list Z)
    (tr : scScopeTrainer D Gen) (batch_data : tensor D) :
  index_rows (one_hot_batches tr) indices = Ok batch_data ->
  model_output Sequential_init data indices tr
  = (Ok (output_list D
           (fst (after_rounds Sequential_init data batch_data (model tr))),
         latent_features_list D
           (fst (after_rounds Sequential_init data batch_data (model tr))),
         F_linear D (batch_effect_layer (self (model tr))) batch_data,
         data),
     set_model D Gen
       (snd (after_rounds Sequential_init data batch_data (model tr))) tr).
Proof.
  intros H.
  unfold model_output, bind, gets, lift, on_model, ret.
  rewrite H, forward_spec. reflexivity.
Qed.

Lemma model_output_index_error (data : tensor D) (indices : list Z)
    (tr : scScopeTrainer D Gen) (e : exn) :
  index_rows (one_hot_batches tr) indices = Raise e ->
  model_output Sequential_init data indices tr = (Raise e, tr).
Proof.
  intros H.
  unfold model_output, bind, gets, lift.
  rewrite H. reflexivity.
Qed.

(** X13.  With more than one batch, whatever cells a minibatch holds, the
    rows of the indicator that [model_output] hands to the model are all the
    same row, and so are the rows of the batch correction [forward]
    returns: one correction vector [v], repeated for every cell of the
    minibatch.  The model is one built for the minibatch: the data and the
    rows of the indicator taken for it have the shapes the model is built
    for. *)
Theorem minibatch_correction_is_one_row
    (w : world D Gen) (gene_dataset : GeneExpressionDataset) (flag : bool)
    (tr : scScopeTrainer D Gen) (data : tensor D) (indices : list Z) :
  trainer_init w gene_dataset flag = Ok tr ->
  (1 < num_batches gene_dataset)%nat ->
  (forall j, In j indices ->
     (- Z.of_nat (nb_cells gene_dataset) <= j
      < Z.of_nat (nb_cells gene_dataset))%Z) ->
  (forall batch_data,
     index_rows (one_hot_batches tr) indices = Ok batch_data ->
     shapes_fit (self w) data batch_data) ->
  layers_keep_shape Sequential_init (self w) data ->
  exists outs lats v tr',
    model_output Sequential_init data indices tr
    = (Ok (outs, lats, repeat v (length indices), data), tr').
Proof.
  intros Hinit Hk Hidx _ _.
  unfold trainer_init, trainer_one_hot_batches in Hinit.
  apply Nat.ltb_lt in Hk. rewrite Hk in Hinit.
  rewrite assign_columns_zeros in Hinit.
  destruct (axis_indices (num_batches gene_dataset)
              (column_indices (batch_indices gene_dataset)))
    as [cols|]; [|discriminate].
  injection Hinit as <-.
  eexists _, _, _, _.
  rewrite (model_output_spec data indices _
             (repeat (map (d_of_Z D)
                          (indicator_row (num_batches gene_dataset) cols))
                     (length indices))).
  - rewrite linear_repeat. reflexivity.
  - cbn [one_hot_batches]. rewrite map_repeat.
    apply index_rows_repeat. exact Hidx.
Qed.
End TrainerFacts.

(** The model built for two batches, on two cells and on one. *)
Lemma two_batch_shapes_fit :
  shapes_fit (self two_batch_world) two_cells
             (torch_tensor float32 [[1; 1]; [1; 1]]%Z).
Proof.
  unfold shapes_fit. cbn.
  split; [discriminate|].
  split; [discriminate|].
  split; [reflexivity|].
  split; [reflexivity|].
  split; rows.
Qed.

Lemma two_batch_one_cell_shapes_fit :
  shapes_fit (self two_batch_world) toy_input
             (torch_tensor float32 [[1; 1]]%Z).
Proof.
  unfold shapes_fit. cbn.
  split; [discriminate|].
  split; [discriminate|].
  split; [reflexivity|].
  split; [reflexivity|].
  split; rows.
Qed.

Lemma minibatch_correction_is_one_row_witness :
  exists outs lats v tr',
    model_output toy_init two_cells [1; 0]%Z toy_trainer
    = (Ok (outs, lats, repeat v 2, two_cells), tr').
Proof.
  apply (minibatch_correction_is_one_row float32 nat toy_init
           two_batch_world toy_dataset true toy_trainer).
  - reflexivity.
  - cbn. lia.
  - cbn. intros j [<-|[<-|[]]]; lia.
  - intros batch_data H. injection H as <-.
    apply two_batch_shapes_fit.
  - apply toy_layers_keep_shape. reflexivity.
Defined.

Section OptimizerFacts.
Variable D : dtype.
Variable Gen : Type.
Variable Sequential_init : nat -> Gen -> (tensor D -> tensor D) * Gen.

Lemma forward_with_imputation (inp exp_batch_input : tensor D)
    (w : world D Gen) :
  (2 <= t (self w))%Z ->
  exists r w' net,
    forward Sequential_init inp exp_batch_input w = (Ok r, w')
    /\ t (self w') = t (self w)
    /\ next_id w' = S (next_id w)
    /\ imputation_model (self w') = Some net
    /\ mod_id net = next_id w.
Proof.
  intros Ht.
  rewrite forward_spec.
  unfold after_rounds.
  destruct (Z.to_nat (t (self w))) as [|[|k]] eqn:E; [lia | lia |].
  eexists _, _, _. split; [reflexivity|].
  repeat split.
Qed.

Lemma forward_calls_with_imputation (calls : list (tensor D * tensor D))
    (w : world D Gen) :
  (2 <= t (self w))%Z ->
  calls <> [] ->
  exists w' net,
    forward_calls Sequential_init calls w = (Ok tt, w')
    /\ imputation_model (self w') = Some net
    /\ (next_id w <= mod_id net)%nat.
Proof.
  revert w.
  induction calls as [|[inp e] calls IH]; intros w Ht Hne; [congruence|].
  cbn [forward_calls]. unfold bind.
  destruct (forward_with_imputation inp e w Ht)
    as (r & w1 & net & Hrun & Ht1 & Hid1 & Hnet & Hmod).
  rewrite Hrun.
  destruct calls as [|c calls].
  - exists w1, net. repeat split; [exact Hnet | lia].
  - destruct (IH w1) as (w' & net' & Hrun' & Hnet' & Hle);
      [rewrite Ht1; exact Ht | discriminate |].
    exists w', net'. repeat split; [exact Hrun' | exact Hnet' | lia].
Qed.

(** X14.  An optimizer holds the parameters the model had when
    [on_training_begin] ran.  On a model of two or more rounds every later
    forward pass, on arguments of the shapes the model is built for,
    constructs a new imputation network, so the network on the model after
    any such later forward passes is never one whose parameters the
    optimizer holds; and on a model that has not run [forward] yet the
    optimizer holds the five other modules only. *)
Theorem optimizer_misses_imputation_network
    (tr : scScopeTrainer D Gen) (calls : list (tensor D * tensor D)) :
  fresh_ids (model tr) ->
  (2 <= t (self (model tr)))%Z ->
  calls <> [] ->
  Forall (fun call =>
            shapes_fit (self (model tr)) (fst call) (snd call)
            /\ layers_keep_shape Sequential_init (self (model tr))
                                 (fst call))
         calls ->
  exists o w' net,
    optimizer (snd (on_training_begin tr)) = Some o
    /\ model (snd (on_training_begin tr)) = model tr
    /\ forward_calls Sequential_init calls (model tr) = (Ok tt, w')
    /\ imputation_model (self w') = Some net
    /\ held_imputation o <> Some (mod_id net)
    /\ (imputation_model (self (model tr)) = None ->
        held o = [Encoder; LatentLayer; Decoder; OutputLayer;
                  BatchEffectLayer]).
Proof.
  intros Hfresh Ht Hne _.
  destruct (forward_calls_with_imputation calls (model tr) Ht Hne)
    as (w' & net & Hrun & Hnet & Hle).
  eexists _, w', net.
  split; [reflexivity|].
  split; [reflexivity|].
  split; [exact Hrun|].
  split; [exact Hnet|].
  split.
  - cbn [held_imputation].
    unfold fresh_ids in Hfresh.
    destruct (imputation_model (self (model tr))) as [old|];
      cbn [option_map]; [|discriminate].
    intros E. injection E as E. lia.
  - intros Hnone. cbn [held]. unfold parameters. rewrite Hnone. reflexivity.
Qed.
End OptimizerFacts.

Lemma optimizer_misses_imputation_network_witness :
  exists o w' net,
    optimizer (snd (on_training_begin toy_trainer)) = Some o
    /\ model (snd (on_training_begin toy_trainer)) = model toy_trainer
    /\ forward_calls toy_init
         [(toy_input, torch_tensor float32 [[1; 1]]%Z)] (model toy_trainer)
       = (Ok tt, w')
    /\ imputation_model (self w') = Some net
    /\ held_imputation o <> Some (mod_id net)
    /\ (imputation_model (self (model toy_trainer)) = None ->
        held o = [Encoder; LatentLayer; Decoder; OutputLayer;
                  BatchEffectLayer]).
Proof.
  apply (optimizer_misses_imputation_network float32 nat toy_init
           toy_trainer [(toy_input, torch_tensor float32 [[1; 1]]%Z)]).
  - exact I.
  - cbn. lia.
  - discriminate.
  - apply Forall_cons; [|apply Forall_nil].
    split.
    + apply two_batch_one_cell_shapes_fit.
    + apply toy_layers_keep_shape. reflexivity.
Defined.

Section TrainingStep.
Variable D : dtype.
Variable Gen : Type.
Variable Sequential_init : nat -> Gen -> (tensor D -> tensor D) * Gen.
Variable backward_step : Adam -> scalar D -> world D Gen -> world D Gen.

Lemma rounds_outputs_nonempty (layers : AutoEncoder D)
    (f : tensor D -> tensor D) (inp b : tensor D) (n : nat) :
  (0 < n)%nat ->
  exists o os, rounds_outputs layers f inp b n = o :: os.
Proof.
  intros Hn. destruct n as [|k]; [lia|].
  eexists _, _. reflexivity.
Qed.

(** X15.  How a training step fails.  An index of the minibatch outside
    the indicator's rows is an IndexError before the model is called, and
    the trainer is as before.  Otherwise, on data and indicator rows of the
    shapes the model is built for: on a model with [t <= 0] the forward pass
    returns no output and the loss raises UnboundLocalError; with [t >= 1]
    and no optimizer ([on_training_begin] has not run) the loss is computed
    and stored in [current_loss], then the step raises AttributeError. *)
Theorem training_step_failures
    (data : tensor D) (indices : list Z) (tr : scScopeTrainer D Gen) :
  (forall e,
     index_rows (one_hot_batches tr) indices = Raise e ->
     on_training_loop Sequential_init backward_step data indices tr
     = (Raise e, tr))
  /\ (forall batch_data,
        index_rows (one_hot_batches tr) indices = Ok batch_data ->
        shapes_fit (self (model tr)) data batch_data ->
        (t (self (model tr)) <= 0)%Z ->
        fst (on_training_loop Sequential_init backward_step data indices tr)
        = Raise UnboundLocalError)
  /\ (forall batch_data,
        index_rows (one_hot_batches tr) indices = Ok batch_data ->
        shapes_fit (self (model tr)) data batch_data ->
        layers_keep_shape Sequential_init (self (model tr)) data ->
        (1 <= t (self (model tr)))%Z ->
        optimizer tr = None ->
        exists v tr',
          on_training_loop Sequential_init backward_step data indices tr
          = (Raise AttributeError, tr')
          /\ current_loss tr' = Some v
          /\ loss D
               (output_list D
                  (fst (after_rounds Sequential_init data batch_data
                          (model tr))))
               data (use_mask tr)
               (F_linear D (batch_effect_layer (self (model tr))) batch_data)
             = Ok v).
Proof.
  repeat split.
  - intros e He.
    unfold on_training_loop, bind at 1.
    rewrite (model_output_index_error D Gen Sequential_init data indices tr e
               He). reflexivity.
  - intros batch_data Hb _ Ht.
    unfold on_training_loop, bind at 1.
    rewrite (model_output_spec D Gen Sequential_init data indices tr
               batch_data Hb).
    unfold after_rounds.
    replace (Z.to_nat (t (self (model tr)))) with 0%nat by lia.
    reflexivity.
  - intros batch_data Hb _ _ Ht Hopt.
    destruct (after_rounds_lists Sequential_init data batch_data (model tr))
      as [Ho _].
    destruct (rounds_outputs_nonempty (base (self (model tr)))
                (fst (Sequential_init (input_dim (self (model tr)))
                                      (rng (model tr))))
                data
                (F_linear D (batch_effect_layer (self (model tr)))
                          batch_data)
                (Z.to_nat (t (self (model tr)))))
      as (o & os & Hos); [lia|].
    rewrite Hos in Ho.
    unfold on_training_loop, bind at 1.
    rewrite (model_output_spec D Gen Sequential_init data indices tr
               batch_data Hb).
    rewrite Ho.
    unfold bind, gets, lift, modify, read.
    cbn [use_mask set_model].
    rewrite loss_nonempty.
    cbn [optimizer set_current_loss set_model]. rewrite Hopt.
    eexists _, _. split; [reflexivity|].
    split; reflexivity.
Qed.
End TrainingStep.

(** X16.  The test of [on_epoch_end].  With [frequency_stats = 0] it is a
    ZeroDivisionError at every epoch, epoch 0 and the last one included.
    Otherwise the statistics are due exactly when [frequency_stats] divides
    the epoch or the epoch is [num_epochs]: the disjunct [epoch == 0] never
    decides, since 0 is a multiple of every frequency. *)
Theorem stats_due_schedule (epoch frequency_stats num_epochs : Z) :
  (frequency_stats = 0%Z -> stats_due epoch frequency_stats num_epochs = None)
  /\ (frequency_stats <> 0%Z ->
      exists due,
        stats_due epoch frequency_stats num_epochs = Some due
        /\ (due = true
            <-> (exists q, epoch = (q * frequency_stats)%Z)
                \/ epoch = num_epochs)).
Proof.
  unfold stats_due. split.
  - intros ->. reflexivity.
  - intros Hf.
    destruct (Z.eqb_spec frequency_stats 0) as [|_]; [contradiction|].
    eexists. split; [reflexivity|].
    rewrite !orb_true_iff, !Z.eqb_eq.
    split.
    + intros [[Hmod | ->] | ->].
      * left. apply Z.mod_divide in Hmod; [|exact Hf].
        destruct Hmod as [q Hq]. exists q. exact Hq.
      * left. exists 0%Z. reflexivity.
      * right. reflexivity.
    + intros [[q ->] | ->].
      * left. left. apply Z.mod_mul. exact Hf.
      * right. reflexivity.
Qed.

Lemma stats_due_schedule_witness :
  exists due,
    stats_due 6 3 10 = Some due
    /\ (due = true <-> (exists q, 6 = q * 3)%Z \/ 6%Z = 10%Z).
Proof.
  apply (proj2 (stats_due_schedule 6 3 10)). discriminate.
Defined.

(** X17.  A call of [predict] whose indicator is built and has, with the
    input, the shapes the model is built for runs the whole forward pass
    before it fails: it raises AttributeError and leaves the model instance
    as [forward] leaves it, and on a model of two or more rounds that
    includes a newly constructed imputation network in place of the stored
    one. *)
Theorem predict_fails_after_forward
    (D : dtype) (Gen : Type)
    (Sequential_init : nat -> Gen -> (tensor D -> tensor D) * Gen)
    (input_d : tensor D) (batch_data one_hot : ndarray) (w : world D Gen) :
  predict_one_hot_batches batch_data = Ok one_hot ->
  shapes_fit (self w) input_d (torch_tensor D one_hot) ->
  layers_keep_shape Sequential_init (self w) input_d ->
  predict Sequential_init input_d batch_data w
  = (Raise AttributeError,
     snd (forward Sequential_init input_d (torch_tensor D one_hot) w))
  /\ ((2 <= t (self w))%Z ->
      exists net,
        imputation_model (self (snd (predict Sequential_init input_d
                                       batch_data w)))
        = Some net
        /\ mod_id net = next_id w).
Proof.
  intros H _ _.
  assert (E : predict Sequential_init input_d batch_data w
              = (Raise AttributeError,
                 snd (forward Sequential_init input_d
                        (torch_tensor D one_hot) w))).
  { unfold predict.
    unfold bind at 1. unfold lift at 1. rewrite H.
    unfold bind at 1.
    rewrite forward_spec. reflexivity. }
  split; [exact E|].
  intros Ht. rewrite E. cbn [snd].
  destruct (forward_with_imputation D Gen Sequential_init input_d
              (torch_tensor D one_hot) w Ht)
    as (r & w' & net & Hrun & _ & _ & Hnet & Hid).
  rewrite Hrun. cbn [snd]. exists net. split; assumption.
Qed.

Lemma predict_fails_after_forward_witness :
  predict toy_init toy_input [[1%Z]] (toy_world 2)
  = (Raise AttributeError,
     snd (forward toy_init toy_input (torch_tensor float32 [[1%Z]])
            (toy_world 2))).
Proof.
  apply (predict_fails_after_forward float32 nat toy_init toy_input
           [[1%Z]] [[1%Z]] (toy_world 2)).
  - reflexivity.
  - apply (toy_shapes_fit 2).
  - apply toy_layers_keep_shape. reflexivity.
Defined.

Lemma training_step_failures_witness :
  on_training_loop toy_init (fun _ _ w => w) toy_input [5%Z] toy_trainer
  = (Raise IndexError, toy_trainer)
  /\ exists v tr',
       on_training_loop toy_init (fun _ _ w => w) two_cells [1; 0]%Z
                        toy_trainer
       = (Raise AttributeError, tr')
       /\ current_loss tr' = Some v.
Proof.
  split.
  - apply (proj1 (training_step_failures float32 nat toy_init
                    (fun _ _ w => w) toy_input [5%Z] toy_trainer)).
    reflexivity.
  - destruct (proj2 (proj2 (training_step_failures float32 nat toy_init
                              (fun _ _ w => w) two_cells [1; 0]%Z
                              toy_trainer))
                (torch_tensor float32 [[1; 1]; [1; 1]]%Z))
      as (v & tr' & Hrun & Hloss & _).
    + reflexivity.
    + apply two_batch_shapes_fit.
    + apply toy_layers_keep_shape. reflexivity.
    + cbn. lia.
    + reflexivity.
    + exists v, tr'. split; assumption.
Defined.
